(** * Closed-loop fan speed controller

    A shallow embedding of [modules/fan_control/fan_control.c] together with
    the two helpers it calls ([potis_dma_get_avg] of
    [modules/potis_dma/potis_dma.c] and the timer set-up of
    [modules/my_timer/my_timer.c]).

    - The module variables of [fan_control.c] and the timer registers the
      module touches are the fields of one record that is threaded through
      every function; every register write is also appended to a trace.
    - C integers are mathematical integers with the wrap-around of their
      type written out ([u32], [s32]).  The [int32_t] sum [errorSum += error]
      wraps as the compiled code does, although C leaves its overflow
      undefined; a statement about where the tick is defined excludes that
      overflow by a hypothesis.
    - The [float] variables are IEEE 754 binary32 values: products, sums and
      conversions from integers are those of [SpecFloat] at precision 24,
      rounding to nearest even; comparison orders the represented numbers.
    - An operation that C leaves undefined (division by zero, a float that
      does not fit the integer it is converted to) makes the function return
      [None].
    - The interrupt of the tachometer pin, the clock of timer 2, the DMA of
      the ADC and the loop of [main] are events; a run of the system is a
      list of events applied to the initialised state. *)

From Stdlib Require Import ZArith List Bool Lia SpecFloat.
Import ListNotations.
Local Open Scope Z_scope.

(** ** Fallible computations *)

Definition bind {A B : Type} (x : option A) (f : A -> option B) : option B :=
  match x with
  | Some a => f a
  | None => None
  end.

Notation "x <- e ;; k" := (bind e (fun x => k))
  (at level 61, e at next level, right associativity).

(** ** C integer types *)

Module CInt.

(** Reduction to [uint32_t]. *)
Definition u32 (z : Z) : Z := z mod 2 ^ 32.

(** Reduction to [int32_t] (two's complement). *)
Definition s32 (z : Z) : Z := (z + 2 ^ 31) mod 2 ^ 32 - 2 ^ 31.

Definition is_u32 (z : Z) : Prop := 0 <= z < 2 ^ 32.
Definition is_s32 (z : Z) : Prop := - 2 ^ 31 <= z < 2 ^ 31.

(** Unsigned division; the quotient by zero is undefined. *)
Definition udiv (a b : Z) : option Z :=
  if b =? 0 then None else Some (a / b).

End CInt.

(** ** Single-precision floats *)

Module F32.

Definition prec : Z := 24.
Definition emax : Z := 128.

Definition float : Type := spec_float.

Definition mul : float -> float -> float := SFmul prec emax.
Definition add : float -> float -> float := SFadd prec emax.

(** Conversion of an integer to [float], rounding to nearest even. *)
Definition of_Z (z : Z) : float := binary_normalize prec emax z 0 false.

(** A decimal literal [num/den] of type [double], converted to [float] by
    the initialiser of a [float] variable. *)
Definition of_double (x : spec_float) : float :=
  match x with
  | S754_finite s m e => binary_round prec emax s m e
  | _ => x
  end.

Definition literal (num den : Z) : float :=
  of_double (SFdiv 53 1024 (binary_normalize 53 1024 num 0 false)
                           (binary_normalize 53 1024 den 0 false)).

(** Signed significand and exponent: a finite float is [sig * 2 ^ expo]. *)
Definition sig (x : float) : Z :=
  match x with
  | S754_finite s m _ => cond_Zopp s (Zpos m)
  | _ => 0
  end.

Definition expo (x : float) : Z :=
  match x with
  | S754_finite _ _ e => e
  | _ => 0
  end.

(** Comparison orders the represented numbers: both significands are
    brought to the smaller exponent.  NaN is unordered. *)
Definition cmp_finite (x y : float) : comparison :=
  let k := Z.min (expo x) (expo y) in
  Z.compare (sig x * 2 ^ (expo x - k)) (sig y * 2 ^ (expo y - k)).

Definition compare (x y : float) : option comparison :=
  match x, y with
  | S754_nan, _ | _, S754_nan => None
  | S754_infinity s1, S754_infinity s2 =>
      Some (match s1, s2 with
            | true, false => Lt
            | false, true => Gt
            | _, _ => Eq
            end)
  | S754_infinity s, _ => Some (if s then Lt else Gt)
  | _, S754_infinity s => Some (if s then Gt else Lt)
  | _, _ => Some (cmp_finite x y)
  end.

Definition ltb (x y : float) : bool :=
  match compare x y with Some Lt => true | _ => false end.

Definition gtb (x y : float) : bool := ltb y x.

Definition leb (x y : float) : bool :=
  match compare x y with Some (Lt | Eq) => true | _ => false end.

Definition is_nan (x : float) : bool :=
  match x with S754_nan => true | _ => false end.

(** Conversion to [uint32_t]: the fraction is discarded; undefined when the
    integral part is not a [uint32_t]. *)
Definition trunc (x : float) : Z :=
  if 0 <=? expo x then sig x * 2 ^ expo x
  else Z.quot (sig x) (2 ^ (- expo x)).

Definition to_u32 (x : float) : option Z :=
  match x with
  | S754_zero _ => Some 0
  | S754_finite _ _ _ =>
      let t := trunc x in
      if (0 <=? t) && (t <? 2 ^ 32) then Some t else None
  | _ => None
  end.

End F32.

(** ** Hardware and module state *)

(** The registers of a timer that the module touches. *)
Record TIM : Type := {
  CEN : bool;      (* counter enabled *)
  CNT : Z;         (* counter *)
  ARR : Z;         (* auto-reload value: the counter runs 0..ARR *)
  CCR2 : Z         (* compare value of channel 2 *)
}.

(** Register writes, in the order they happen. *)
Inductive HwOp : Type :=
| TIM2_Start
| TIM2_Stop
| TIM2_SetCounter (v : Z)
| TIM3_ConfigChannel (pulse : Z)
| TIM3_PWM_Start
| TIM3_SetCompare (v : Z).

Record State : Type := {
  fan_control_time_interval : Z;   (* volatile uint32_t *)
  fan_start_flag : Z;              (* volatile uint8_t *)
  frequency : Z;                   (* volatile uint32_t *)
  fan_control_actual_RPM : Z;      (* volatile uint32_t *)
  targetRPM : Z;                   (* volatile uint32_t *)
  errorSum : Z;                    (* volatile int32_t *)
  fan_control_poti_val : Z;        (* volatile uint32_t *)
  Kp : F32.float;
  Ki : F32.float;
  output : F32.float;
  TIM2 : TIM;
  TIM3 : TIM;
  dma_address : list Z;            (* uint32_t dma_address[200] *)
  trace : list HwOp
}.

Definition set_time_interval (v : Z) (st : State) : State :=
  {| fan_control_time_interval := v; fan_start_flag := fan_start_flag st;
     frequency := frequency st;
     fan_control_actual_RPM := fan_control_actual_RPM st;
     targetRPM := targetRPM st; errorSum := errorSum st;
     fan_control_poti_val := fan_control_poti_val st;
     Kp := Kp st; Ki := Ki st; output := output st;
     TIM2 := TIM2 st; TIM3 := TIM3 st;
     dma_address := dma_address st; trace := trace st |}.

Definition set_start_flag (v : Z) (st : State) : State :=
  {| fan_control_time_interval := fan_control_time_interval st;
     fan_start_flag := v; frequency := frequency st;
     fan_control_actual_RPM := fan_control_actual_RPM st;
     targetRPM := targetRPM st; errorSum := errorSum st;
     fan_control_poti_val := fan_control_poti_val st;
     Kp := Kp st; Ki := Ki st; output := output st;
     TIM2 := TIM2 st; TIM3 := TIM3 st;
     dma_address := dma_address st; trace := trace st |}.

Definition set_actual_RPM (v : Z) (st : State) : State :=
  {| fan_control_time_interval := fan_control_time_interval st;
     fan_start_flag := fan_start_flag st; frequency := frequency st;
     fan_control_actual_RPM := v;
     targetRPM := targetRPM st; errorSum := errorSum st;
     fan_control_poti_val := fan_control_poti_val st;
     Kp := Kp st; Ki := Ki st; output := output st;
     TIM2 := TIM2 st; TIM3 := TIM3 st;
     dma_address := dma_address st; trace := trace st |}.

Definition set_targetRPM (v : Z) (st : State) : State :=
  {| fan_control_time_interval := fan_control_time_interval st;
     fan_start_flag := fan_start_flag st; frequency := frequency st;
     fan_control_actual_RPM := fan_control_actual_RPM st;
     targetRPM := v; errorSum := errorSum st;
     fan_control_poti_val := fan_control_poti_val st;
     Kp := Kp st; Ki := Ki st; output := output st;
     TIM2 := TIM2 st; TIM3 := TIM3 st;
     dma_address := dma_address st; trace := trace st |}.

Definition set_errorSum (v : Z) (st : State) : State :=
  {| fan_control_time_interval := fan_control_time_interval st;
     fan_start_flag := fan_start_flag st; frequency := frequency st;
     fan_control_actual_RPM := fan_control_actual_RPM st;
     targetRPM := targetRPM st; errorSum := v;
     fan_control_poti_val := fan_control_poti_val st;
     Kp := Kp st; Ki := Ki st; output := output st;
     TIM2 := TIM2 st; TIM3 := TIM3 st;
     dma_address := dma_address st; trace := trace st |}.

Definition set_poti_val (v : Z) (st : State) : State :=
  {| fan_control_time_interval := fan_control_time_interval st;
     fan_start_flag := fan_start_flag st; frequency := frequency st;
     fan_control_actual_RPM := fan_control_actual_RPM st;
     targetRPM := targetRPM st; errorSum := errorSum st;
     fan_control_poti_val := v;
     Kp := Kp st; Ki := Ki st; output := output st;
     TIM2 := TIM2 st; TIM3 := TIM3 st;
     dma_address := dma_address st; trace := trace st |}.

Definition set_output (v : F32.float) (st : State) : State :=
  {| fan_control_time_interval := fan_control_time_interval st;
     fan_start_flag := fan_start_flag st; frequency := frequency st;
     fan_control_actual_RPM := fan_control_actual_RPM st;
     targetRPM := targetRPM st; errorSum := errorSum st;
     fan_control_poti_val := fan_control_poti_val st;
     Kp := Kp st; Ki := Ki st; output := v;
     TIM2 := TIM2 st; TIM3 := TIM3 st;
     dma_address := dma_address st; trace := trace st |}.

Definition set_dma_address (v : list Z) (st : State) : State :=
  {| fan_control_time_interval := fan_control_time_interval st;
     fan_start_flag := fan_start_flag st; frequency := frequency st;
     fan_control_actual_RPM := fan_control_actual_RPM st;
     targetRPM := targetRPM st; errorSum := errorSum st;
     fan_control_poti_val := fan_control_poti_val st;
     Kp := Kp st; Ki := Ki st; output := output st;
     TIM2 := TIM2 st; TIM3 := TIM3 st;
     dma_address := v; trace := trace st |}.

(** A register write on timer 2 or 3, recorded in the trace. *)
Definition write_TIM2 (op : HwOp) (t : TIM) (st : State) : State :=
  {| fan_control_time_interval := fan_control_time_interval st;
     fan_start_flag := fan_start_flag st; frequency := frequency st;
     fan_control_actual_RPM := fan_control_actual_RPM st;
     targetRPM := targetRPM st; errorSum := errorSum st;
     fan_control_poti_val := fan_control_poti_val st;
     Kp := Kp st; Ki := Ki st; output := output st;
     TIM2 := t; TIM3 := TIM3 st;
     dma_address := dma_address st; trace := trace st ++ [op] |}.

Definition write_TIM3 (op : HwOp) (t : TIM) (st : State) : State :=
  {| fan_control_time_interval := fan_control_time_interval st;
     fan_start_flag := fan_start_flag st; frequency := frequency st;
     fan_control_actual_RPM := fan_control_actual_RPM st;
     targetRPM := targetRPM st; errorSum := errorSum st;
     fan_control_poti_val := fan_control_poti_val st;
     Kp := Kp st; Ki := Ki st; output := output st;
     TIM2 := TIM2 st; TIM3 := t;
     dma_address := dma_address st; trace := trace st ++ [op] |}.

(** Timer 2 changed without a write that the trace records: the counter
    advanced by the hardware, or the configuration at initialisation. *)
Definition put_TIM2 (t : TIM) (st : State) : State :=
  {| fan_control_time_interval := fan_control_time_interval st;
     fan_start_flag := fan_start_flag st; frequency := frequency st;
     fan_control_actual_RPM := fan_control_actual_RPM st;
     targetRPM := targetRPM st; errorSum := errorSum st;
     fan_control_poti_val := fan_control_poti_val st;
     Kp := Kp st; Ki := Ki st; output := output st;
     TIM2 := t; TIM3 := TIM3 st;
     dma_address := dma_address st; trace := trace st |}.

(** ** The module *)

Import CInt.

Definition MAX_PWM : Z := 199.
Definition MIN_PWM : Z := 15.

(** [GPIO_PIN_1] of the HAL (bit 1 of the pin mask). *)
Definition GPIO_PIN_1 : Z := 2.

Definition POTIS_DMA_1 : Z := 1.
Definition POTIS_DMA_2 : Z := 2.

(** The initialisers [volatile float Kp = 0.98] and [Ki = 2.1]. *)
Definition Kp_init : F32.float := F32.literal 98 100.
Definition Ki_init : F32.float := F32.literal 21 10.

(** *** HAL calls and macros used by the module *)

Definition HAL_TIM_Base_Start (st : State) : State :=
  let t := TIM2 st in
  write_TIM2 TIM2_Start
    {| CEN := true; CNT := CNT t; ARR := ARR t; CCR2 := CCR2 t |} st.

Definition HAL_TIM_Base_Stop (st : State) : State :=
  let t := TIM2 st in
  write_TIM2 TIM2_Stop
    {| CEN := false; CNT := CNT t; ARR := ARR t; CCR2 := CCR2 t |} st.

Definition HAL_TIM_GET_COUNTER (st : State) : Z := CNT (TIM2 st).

Definition HAL_TIM_SET_COUNTER (v : Z) (st : State) : State :=
  let t := TIM2 st in
  write_TIM2 (TIM2_SetCounter v)
    {| CEN := CEN t; CNT := v; ARR := ARR t; CCR2 := CCR2 t |} st.

Definition HAL_TIM_SET_COMPARE (v : Z) (st : State) : State :=
  let t := TIM3 st in
  write_TIM3 (TIM3_SetCompare v)
    {| CEN := CEN t; CNT := CNT t; ARR := ARR t; CCR2 := v |} st.

(** *** [regulateFanSpeed], fan_control.c lines 369-409 *)

(** Lines 376-389: the speed estimate and the PI law.  The local [error] is
    returned next to the updated module variables.  The two divisions are
    unsigned integer divisions; [error] and [errorSum] are [int32_t]; every
    floating-point operation rounds on its own, in the order C gives the
    expression: [(Kp * error) + ((Ki * errorSum) * Ta)]. *)
Definition pi_law (st : State) : option (Z * State) :=
  q <- udiv (frequency st) (u32 (fan_control_time_interval st * 2)) ;;
  let st := set_actual_RPM (u32 (q * 60)) st in
  let error := s32 (u32 (targetRPM st - fan_control_actual_RPM st)) in
  t <- udiv (fan_control_time_interval st) (frequency st) ;;
  let Ta := F32.of_Z t in
  let st := set_errorSum (s32 (errorSum st + error)) st in
  let st :=
    set_output
      (F32.add (F32.mul (Kp st) (F32.of_Z error))
               (F32.mul (F32.mul (Ki st) (F32.of_Z (errorSum st))) Ta)) st in
  Some (error, st).

(** Lines 397-403: saturation with the correction of [errorSum]. *)
Definition saturate (error : Z) (st : State) : State :=
  if F32.gtb (output st) (F32.of_Z MAX_PWM) then
    let st := set_output (F32.of_Z MAX_PWM) st in
    set_errorSum (s32 (errorSum st - error)) st
  else if F32.ltb (output st) (F32.of_Z MIN_PWM) then
    let st := set_output (F32.of_Z MIN_PWM) st in
    set_errorSum (s32 (errorSum st - error)) st
  else st.

(** Lines 407-408: [output] is converted to the [uint32_t] compare register. *)
Definition actuate (st : State) : option State :=
  c <- F32.to_u32 (output st) ;;
  Some (HAL_TIM_SET_COMPARE c st).

Definition regulateFanSpeed (st : State) : option State :=
  r <- pi_law st ;;
  actuate (saturate (fst r) (snd r)).

(** *** [HAL_GPIO_EXTI_Callback], lines 330-354 *)

Definition HAL_GPIO_EXTI_Callback (GPIO_Pin : Z) (st : State) : option State :=
  if GPIO_Pin =? GPIO_PIN_1 then
    if fan_start_flag st =? 0 then
      let st := HAL_TIM_Base_Start st in
      Some (set_start_flag 1 st)
    else
      let st := HAL_TIM_Base_Stop st in
      let st := set_time_interval (HAL_TIM_GET_COUNTER st) st in
      st <- regulateFanSpeed st ;;
      let st := HAL_TIM_SET_COUNTER 0 st in
      Some (set_start_flag 0 st)
  else Some st.

(** *** [potis_dma_get_avg], potis_dma.c lines 127-146

    The parameter is a [uint8_t]: [input] stands for a value from 0 to 255,
    to which C converts the argument before the call. *)

(** The loop [for (i = 0; i < 200; i = i + 2) tmp += dma_address[i + off]]. *)
Definition sum_channel (off : nat) (buf : list Z) : Z :=
  fold_left (fun tmp k => u32 (tmp + nth (2 * k + off) buf 0)) (seq 0 100) 0.

Definition potis_dma_get_avg (input : Z) (st : State) : Z :=
  let tmp := 0 in
  let tmp :=
    if input =? POTIS_DMA_1 then u32 (tmp + sum_channel 0 (dma_address st))
    else tmp in
  let tmp :=
    if input =? POTIS_DMA_2 then u32 (tmp + sum_channel 1 (dma_address st))
    else tmp in
  tmp / 100.

(** *** [fan_control_set_rpm], fan_control.c lines 190-197 *)

Definition fan_control_set_rpm (st : State) : State :=
  let st :=
    set_poti_val (u32 (potis_dma_get_avg POTIS_DMA_1 st * 4500) / 4095) st in
  set_targetRPM (fan_control_poti_val st) st.

(** *** Initialisation, lines 132-144, 212-262

    Of [fan_control_init] the two timer set-ups are modelled; the calls that
    bring up the HAL, the ADC with its DMA, the display and the pins leave
    the state below as it is (the interrupt and the DMA they enable are the
    events [EvEdge] and [EvDma] of the environment). *)

(** [my_timer_init (TIMER_INSTANCE_2, TIMER_MODE_BASE, 10000, 10000)]: the
    period register is [period - 1]; the counter is not started. *)
Definition fan_control_timer_2_init (st : State) : State :=
  let period := 10000 in
  let t := TIM2 st in
  put_TIM2
    {| CEN := CEN t; CNT := CNT t; ARR := u32 (period - 1); CCR2 := CCR2 t |}
    st.

(** Timer 3: period [f_pwm - 1], channel 2 configured with [Pulse = 0], PWM
    started. *)
Definition fan_control_timer_3_init (st : State) : State :=
  let f_pwm := 200 in
  let pulse := 0 in
  let t := TIM3 st in
  let st :=
    write_TIM3 (TIM3_ConfigChannel pulse)
      {| CEN := CEN t; CNT := CNT t; ARR := u32 (f_pwm - 1); CCR2 := pulse |}
      st in
  let t := TIM3 st in
  write_TIM3 TIM3_PWM_Start
    {| CEN := true; CNT := CNT t; ARR := ARR t; CCR2 := CCR2 t |} st.

Definition fan_control_init (st : State) : State :=
  let st := fan_control_timer_2_init st in
  fan_control_timer_3_init st.

(** The module variables as their initialisers leave them, timers in their
    reset state, the DMA buffer zero-initialised. *)
Definition reset_TIM : TIM :=
  {| CEN := false; CNT := 0; ARR := 2 ^ 32 - 1; CCR2 := 0 |}.

Definition power_on : State :=
  {| fan_control_time_interval := 0; fan_start_flag := 0;
     frequency := 10000; fan_control_actual_RPM := 0;
     targetRPM := 0; errorSum := 0; fan_control_poti_val := 0;
     Kp := Kp_init; Ki := Ki_init; output := F32.of_Z 0;
     TIM2 := reset_TIM; TIM3 := reset_TIM;
     dma_address := repeat 0 200; trace := [] |}.

Definition initial : State := fan_control_init power_on.

(** ** Environment *)

(** One clock of timer 2 (10 kHz after the prescaler): an enabled counter
    counts up and restarts from zero after [ARR]. *)
Definition tick_TIM2 (st : State) : State :=
  let t := TIM2 st in
  if CEN t then
    put_TIM2
      {| CEN := true; CNT := (if CNT t <? ARR t then CNT t + 1 else 0);
         ARR := ARR t; CCR2 := CCR2 t |} st
  else st.

(** The DMA stores one 12-bit, right-aligned conversion result in the
    buffer. *)
Fixpoint store (i : nat) (v : Z) (buf : list Z) : list Z :=
  match buf, i with
  | [], _ => []
  | _ :: r, O => v :: r
  | x :: r, S j => x :: store j v r
  end.

Definition dma_transfer (i : nat) (v : Z) (st : State) : State :=
  set_dma_address (store i (Z.land v 4095) (dma_address st)) st.

Inductive Event : Type :=
| EvEdge (pin : Z)            (* EXTI interrupt: rising edge on a pin *)
| EvClock                     (* one clock of timer 2 *)
| EvDma (i : nat) (v : Z)     (* one ADC result stored by the DMA *)
| EvMain.                     (* one iteration of the loop of [main] *)

Definition step (ev : Event) (st : State) : option State :=
  match ev with
  | EvEdge pin => HAL_GPIO_EXTI_Callback pin st
  | EvClock => Some (tick_TIM2 st)
  | EvDma i v => Some (dma_transfer i v st)
  | EvMain => Some (fan_control_set_rpm st)
  end.

Fixpoint run (evs : list Event) (st : State) : option State :=
  match evs with
  | [] => Some st
  | ev :: rest => st' <- step ev st ;; run rest st'
  end.

(** ** Predicates used in the statements *)

(** Shape of a float: its sign, and the position of its leading bit
    ([digits + exponent]), which bounds its magnitude by a power of two. *)
Definition sign_of (x : spec_float) : bool :=
  match x with
  | S754_zero s | S754_infinity s | S754_finite s _ _ => s
  | S754_nan => false
  end.

(** A zero, or a finite number below [2 ^ K] in magnitude. *)
Definition finite_upto (K : Z) (x : spec_float) : Prop :=
  match x with
  | S754_zero _ => True
  | S754_finite _ m e => Zpos (digits2_pos m) + e <= K
  | _ => False
  end.

(** A finite, non-zero number with magnitude in [2 ^ (lo - 1), 2 ^ hi). *)
Definition normal_in (lo hi : Z) (x : spec_float) : Prop :=
  match x with
  | S754_finite _ m e => lo <= Zpos (digits2_pos m) + e <= hi
  | _ => False
  end.

(** [x] is a binary32 number in canonical form. *)
Definition valid32 (x : F32.float) : bool := valid_binary F32.prec F32.emax x.

(** [x] lies in the duty range, as the comparisons of the code see it. *)
Definition duty_ok (x : F32.float) : bool :=
  F32.leb (F32.of_Z MIN_PWM) x && F32.leb x (F32.of_Z MAX_PWM).

(** The saturation of lines 397-403 fires on the pre-clamp output. *)
Definition clamped (st : State) : bool :=
  F32.gtb (output st) (F32.of_Z MAX_PWM) ||
  F32.ltb (output st) (F32.of_Z MIN_PWM).

(** The variables [regulateFanSpeed] reads hold values of their C types; the
    variables that no function assigns hold their initialisers. *)
Definition wf (st : State) : Prop :=
  frequency st = 10000 /\ Kp st = Kp_init /\ Ki st = Ki_init /\
  is_u32 (fan_control_time_interval st) /\
  is_u32 (targetRPM st) /\
  is_s32 (errorSum st).

(** What holds of every state the running system reaches. *)
Definition inv (st : State) : Prop :=
  wf st /\
  ARR (TIM2 st) = 9999 /\
  0 <= CNT (TIM2 st) <= 9999 /\
  0 <= fan_control_time_interval st <= 9999 /\
  0 <= targetRPM st <= 4500 /\
  Forall (fun v => 0 <= v <= 4095) (dma_address st).

(** Number of tachometer edges (interrupts of pin 1) among the events. *)
Fixpoint count_edges (evs : list Event) : nat :=
  match evs with
  | [] => O
  | EvEdge pin :: rest =>
      if pin =? GPIO_PIN_1 then S (count_edges rest) else count_edges rest
  | _ :: rest => count_edges rest
  end.

(** No measurement of the event sequence closes on a counter that reads
    zero.  Only the capture state and the counter of timer 2 are followed:
    [measuring] tells whether a measurement is open, [cnt] is the counter. *)
Fixpoint intervals_nonzero (evs : list Event) (measuring : bool) (cnt : Z)
  : bool :=
  match evs with
  | [] => true
  | EvEdge pin :: rest =>
      if pin =? GPIO_PIN_1 then
        if measuring then negb (cnt =? 0) && intervals_nonzero rest false 0
        else intervals_nonzero rest true cnt
      else intervals_nonzero rest measuring cnt
  | EvClock :: rest =>
      intervals_nonzero rest measuring
        (if measuring then (if cnt <? 9999 then cnt + 1 else 0) else cnt)
  | _ :: rest => intervals_nonzero rest measuring cnt
  end.

(** The register writes of the first [n] edges, compare values erased: an
    odd-numbered edge starts timer 2; an even-numbered edge stops it, writes
    one compare value and clears the counter. *)
Fixpoint edge_ops (n : nat) : list HwOp :=
  match n with
  | O => []
  | S k =>
      edge_ops k ++
      (if Nat.even k then [TIM2_Start]
       else [TIM2_Stop; TIM3_SetCompare 0; TIM2_SetCounter 0])
  end.

Definition erase (op : HwOp) : HwOp :=
  match op with
  | TIM3_SetCompare _ => TIM3_SetCompare 0
  | _ => op
  end.

Definition is_compare (op : HwOp) : bool :=
  match op with
  | TIM3_SetCompare _ => true
  | _ => false
  end.

Definition compare_in_range (op : HwOp) : Prop :=
  match op with
  | TIM3_SetCompare v => MIN_PWM <= v <= MAX_PWM
  | _ => True
  end.

(** What holds after [n] tachometer edges. *)
Definition capture_inv (n : nat) (st : State) : Prop :=
  inv st /\
  fan_start_flag st = (if Nat.even n then 0 else 1) /\
  CEN (TIM2 st) = Nat.odd n /\
  (Nat.even n = true -> CNT (TIM2 st) = 0) /\
  map erase (trace st) = map erase (trace initial) ++ edge_ops n.

(** No regulation tick has happened: the PWM runs with the compare value of
    the initialisation. *)
Definition untouched (st : State) : Prop :=
  CEN (TIM3 st) = true /\ CCR2 (TIM3 st) = 0 /\
  existsb is_compare (trace st) = false /\
  output st = F32.of_Z 0.

(** ** The sampling period as the specification words it

    The quotient [interval / tickFrequency] taken in floating point, and the
    controller output computed with it. *)
Definition spec_samplingPeriod (st : State) : F32.float :=
  SFdiv F32.prec F32.emax (F32.of_Z (fan_control_time_interval st))
                          (F32.of_Z (frequency st)).

Definition spec_output (error : Z) (st : State) : F32.float :=
  F32.add (F32.mul (Kp st) (F32.of_Z error))
          (F32.mul (F32.mul (Ki st) (F32.of_Z (errorSum st)))
                   (spec_samplingPeriod st)).

(** ** Concrete states *)

(** An interval of 100 ticks at 10 kHz has just been captured. *)
Definition interval_100 : State := set_time_interval 100 initial.

(** The same with a target of 3000 RPM, and of 3200 RPM. *)
Definition target_3000 : State := set_targetRPM 3000 interval_100.
Definition target_3200 : State := set_targetRPM 3200 interval_100.

(** The second edge arrives before timer 2 has counted. *)
Definition interval_0 : State := set_time_interval 0 initial.

(** Both potentiometer channels at full scale. *)
Definition full_scale : State := set_dma_address (repeat 4095 200) initial.

(** Every compare value written so far is a duty value, and once a tick has
    written one, [output] and the compare register are within the range. *)
Definition duty_inv (st : State) : Prop :=
  Forall compare_in_range (trace st) /\
  (existsb is_compare (trace st) = true ->
   duty_ok (output st) = true /\ MIN_PWM <= CCR2 (TIM3 st) <= MAX_PWM).

(** The state after the PI law, and after the whole tick, where defined. *)
Definition after_pi_law (st : State) : State :=
  match pi_law st with Some r => snd r | None => st end.

Definition after_tick (st : State) : State :=
  match regulateFanSpeed st with Some st' => st' | None => st end.

(** The state a run ends in, where defined. *)
Definition after_run (evs : list Event) : State :=
  match run evs initial with Some st => st | None => initial end.

(** One half revolution: an edge, two clocks of timer 2, the closing edge;
    and the same followed by the edge that opens the next measurement. *)
Definition half_revolution : list Event :=
  [EvEdge GPIO_PIN_1; EvClock; EvClock; EvEdge GPIO_PIN_1].

Definition three_edges : list Event :=
  half_revolution ++ [EvMain; EvEdge GPIO_PIN_1; EvClock].

(** Before the first measurement closes: the main loop runs, one edge
    arrives, the timer counts. *)
Definition one_edge : list Event :=
  [EvMain; EvDma 0 4095; EvEdge GPIO_PIN_1; EvClock; EvMain].

(** No tachometer edge: the main loop, the DMA, the timer clock and an
    interrupt of another pin. *)
Definition one_edge_free : list Event :=
  [EvMain; EvDma 0 4095; EvClock; EvEdge 1; EvMain].

(** ** The tick in closed form

    The compare value as a function of the error alone, and the test that
    the single-precision product [Kp * error] falls on the side of the two
    saturation limits that this function says. *)
Definition duty_of_error (error : Z) : Z :=
  if error <? 16 then MIN_PWM
  else if 203 <? error then MAX_PWM
  else error * 49 / 50.

Definition band_check (e : Z) : bool :=
  let P := F32.mul Kp_init (F32.of_Z e) in
  if e <? 16 then
    negb (F32.gtb P (F32.of_Z MAX_PWM)) && F32.ltb P (F32.of_Z MIN_PWM)
  else if 203 <? e then F32.gtb P (F32.of_Z MAX_PWM)
  else
    negb (F32.gtb P (F32.of_Z MAX_PWM)) &&
    negb (F32.ltb P (F32.of_Z MIN_PWM)) &&
    match F32.to_u32 P with
    | Some c => c =? e * 49 / 50
    | None => false
    end.

(** * Facts about the arithmetic *)

(** ** Number of binary digits *)

Lemma digits2_pos_bounds (p : positive) :
  2 ^ (Zpos (digits2_pos p) - 1) <= Zpos p < 2 ^ Zpos (digits2_pos p).
Proof.
  induction p as [p IH | p IH |]; cbn [digits2_pos].
  - rewrite Pos2Z.inj_succ.
    replace (Z.succ (Zpos (digits2_pos p)) - 1) with (Z.succ (Zpos (digits2_pos p) - 1)) by lia.
    rewrite !Z.pow_succ_r by lia. lia.
  - rewrite Pos2Z.inj_succ.
    replace (Z.succ (Zpos (digits2_pos p)) - 1) with (Z.succ (Zpos (digits2_pos p) - 1)) by lia.
    rewrite !Z.pow_succ_r by lia. lia.
  - cbn. lia.
Qed.

Lemma Zdigits2_nonneg (m : Z) : 0 <= Zdigits2 m.
Proof. destruct m; cbn; lia. Qed.

Lemma Zdigits2_ub (m : Z) : 0 <= m -> m < 2 ^ Zdigits2 m.
Proof.
  destruct m as [|p|p]; intros H; cbn [Zdigits2].
  - reflexivity.
  - apply digits2_pos_bounds.
  - lia.
Qed.

Lemma Zdigits2_lb (m : Z) : 0 < m -> 2 ^ (Zdigits2 m - 1) <= m.
Proof.
  destruct m as [|p|p]; intros H; cbn [Zdigits2]; try lia.
  apply digits2_pos_bounds.
Qed.

Lemma Zdigits2_le (m k : Z) : 0 <= k -> 0 <= m < 2 ^ k -> Zdigits2 m <= k.
Proof.
  intros Hk [H0 Hm].
  destruct (Z.eq_dec m 0) as [->|Hz]; [cbn; lia|].
  assert (Hl := Zdigits2_lb m ltac:(lia)).
  destruct (Z_le_gt_dec (Zdigits2 m) k) as [|Hgt]; [assumption|exfalso].
  assert (2 ^ k <= 2 ^ (Zdigits2 m - 1)) by (apply Z.pow_le_mono_r; lia).
  lia.
Qed.

Lemma Zdigits2_ge (m k : Z) : 2 ^ (k - 1) <= m -> 0 < m -> k <= Zdigits2 m.
Proof.
  intros Hk Hm.
  assert (Hu := Zdigits2_ub m ltac:(lia)).
  assert (Hn := Zdigits2_nonneg m).
  destruct (Z_le_gt_dec k (Zdigits2 m)) as [|Hgt]; [assumption|exfalso].
  assert (2 ^ Zdigits2 m <= 2 ^ (k - 1)) by (apply Z.pow_le_mono_r; lia).
  lia.
Qed.

Lemma Zdigits2_succ (m : Z) : 0 <= m -> Zdigits2 (m + 1) <= Zdigits2 m + 1.
Proof.
  intros H. assert (Hu := Zdigits2_ub m H). assert (Hn := Zdigits2_nonneg m).
  apply Zdigits2_le; [lia|].
  rewrite Z.pow_add_r by lia. lia.
Qed.

Lemma Zdigits2_mono (a b : Z) : 0 <= a <= b -> Zdigits2 a <= Zdigits2 b.
Proof.
  intros [Ha Hab]. apply Zdigits2_le; [apply Zdigits2_nonneg|].
  assert (Hu := Zdigits2_ub b ltac:(lia)). lia.
Qed.

Lemma Zdigits2_mul (a b : Z) : 0 <= a -> 0 <= b -> Zdigits2 (a * b) <= Zdigits2 a + Zdigits2 b.
Proof.
  intros Ha Hb.
  assert (Hua := Zdigits2_ub a Ha). assert (Hub := Zdigits2_ub b Hb).
  assert (Hna := Zdigits2_nonneg a). assert (Hnb := Zdigits2_nonneg b).
  apply Zdigits2_le; [lia|].
  rewrite Z.pow_add_r by lia. nia.
Qed.

Lemma Zdigits2_mul_ge (a b : Z) : 0 < a -> 0 < b -> Zdigits2 a + Zdigits2 b - 1 <= Zdigits2 (a * b).
Proof.
  intros Ha Hb.
  assert (Hla := Zdigits2_lb a Ha). assert (Hlb := Zdigits2_lb b Hb).
  assert (Hna : 0 < Zdigits2 a) by (destruct a; cbn in *; lia).
  assert (Hnb : 0 < Zdigits2 b) by (destruct b; cbn in *; lia).
  apply Zdigits2_ge; [|nia].
  replace (Zdigits2 a + Zdigits2 b - 1 - 1) with ((Zdigits2 a - 1) + (Zdigits2 b - 1)) by lia.
  rewrite Z.pow_add_r by lia.
  assert (0 < 2 ^ (Zdigits2 a - 1)) by (apply Z.pow_pos_nonneg; lia).
  assert (0 < 2 ^ (Zdigits2 b - 1)) by (apply Z.pow_pos_nonneg; lia).
  nia.
Qed.

Lemma Zdigits2_div_pow2_le (m n : Z) :
  0 <= m -> 0 < n -> Zdigits2 (m / 2 ^ n) <= Z.max 0 (Zdigits2 m - n).
Proof.
  intros Hm Hn.
  assert (Hu := Zdigits2_ub m Hm). assert (Hd := Zdigits2_nonneg m).
  assert (Hp : 0 < 2 ^ n) by (apply Z.pow_pos_nonneg; lia).
  apply Zdigits2_le; [lia|]. split; [apply Z.div_pos; lia|].
  apply Z.div_lt_upper_bound; [lia|].
  destruct (Z_le_gt_dec n (Zdigits2 m)).
  - rewrite Z.max_r by lia. rewrite <- Z.pow_add_r by lia.
    replace (n + (Zdigits2 m - n)) with (Zdigits2 m) by lia. assumption.
  - rewrite Z.max_l by lia. rewrite Z.pow_0_r.
    assert (2 ^ Zdigits2 m <= 2 ^ n) by (apply Z.pow_le_mono_r; lia). lia.
Qed.

Lemma Zdigits2_div_pow2_ge (m n : Z) :
  0 < m -> 0 < n < Zdigits2 m -> Zdigits2 m - n <= Zdigits2 (m / 2 ^ n) /\ 0 < m / 2 ^ n.
Proof.
  intros Hm Hn.
  assert (Hl := Zdigits2_lb m Hm).
  assert (Hp : 0 < 2 ^ n) by (apply Z.pow_pos_nonneg; lia).
  assert (Hq : 2 ^ (Zdigits2 m - n - 1) <= m / 2 ^ n).
  { apply Z.div_le_lower_bound; [lia|].
    rewrite <- Z.pow_add_r by lia.
    replace (n + (Zdigits2 m - n - 1)) with (Zdigits2 m - 1) by lia. assumption. }
  assert (0 < 2 ^ (Zdigits2 m - n - 1)) by (apply Z.pow_pos_nonneg; lia).
  split; [|lia].
  apply Zdigits2_ge; [assumption|lia].
Qed.

Lemma shr_1_m (r : shr_record) : 0 <= shr_m r -> shr_m (shr_1 r) = shr_m r / 2.
Proof.
  destruct r as [m r s]; cbn [shr_m]; intros H.
  destruct m as [|[p|p|]|p]; cbn [shr_1 shr_m]; try lia;
    first [ reflexivity
          | apply Z.div_unique with 1; lia
          | apply Z.div_unique with 0; lia ].
Qed.

Lemma pow2_xO (p : positive) : 2 ^ Zpos p~0 = 2 ^ Zpos p * 2 ^ Zpos p.
Proof.
  rewrite (Pos2Z.inj_xO p). replace (2 * Zpos p) with (Zpos p + Zpos p) by lia.
  apply Z.pow_add_r; lia.
Qed.

Lemma pow2_xI (p : positive) : 2 ^ Zpos p~1 = 2 * (2 ^ Zpos p * 2 ^ Zpos p).
Proof.
  rewrite (Pos2Z.inj_xI p). replace (2 * Zpos p + 1) with (1 + (Zpos p + Zpos p)) by lia.
  rewrite !Z.pow_add_r by lia. reflexivity.
Qed.

Lemma iter_shr_1_m (p : positive) :
  forall r, 0 <= shr_m r -> shr_m (iter_pos shr_1 p r) = shr_m r / 2 ^ Zpos p.
Proof.
  induction p as [p IH | p IH |]; intros r H; cbn [iter_pos].
  - assert (H1 : 0 <= shr_m (shr_1 r)) by (rewrite shr_1_m by assumption; apply Z.div_pos; lia).
    assert (Hp : 0 < 2 ^ Zpos p) by (apply Z.pow_pos_nonneg; lia).
    assert (H2 : 0 <= shr_m (iter_pos shr_1 p (shr_1 r))) by (rewrite IH by assumption; apply Z.div_pos; lia).
    rewrite IH by assumption. rewrite IH by assumption. rewrite shr_1_m by assumption.
    rewrite !Z.div_div by lia. rewrite pow2_xI. reflexivity.
  - assert (Hp : 0 < 2 ^ Zpos p) by (apply Z.pow_pos_nonneg; lia).
    assert (H2 : 0 <= shr_m (iter_pos shr_1 p r)) by (rewrite IH by assumption; apply Z.div_pos; lia).
    rewrite IH by assumption. rewrite IH by assumption.
    rewrite !Z.div_div by lia. rewrite pow2_xO. reflexivity.
  - rewrite shr_1_m by assumption. reflexivity.
Qed.

Lemma shr_record_of_loc_m (m : Z) (l : location) : shr_m (shr_record_of_loc m l) = m.
Proof. destruct l as [|[]]; reflexivity. Qed.

Lemma round_nearest_even_bounds (m : Z) (l : location) :
  m <= round_nearest_even m l <= m + 1.
Proof.
  unfold round_nearest_even. destruct l as [|[]]; try lia.
  destruct (Z.even m); lia.
Qed.

(** Shifting right by [n] keeps [digits + exponent], unless nothing is left. *)
Lemma shift_top_le (m n : Z) :
  0 <= m -> 0 <= n -> Zdigits2 (m / 2 ^ n) + n <= Z.max (Zdigits2 m) n.
Proof.
  intros Hm Hn. destruct (Z.eq_dec n 0) as [->|Hz].
  - rewrite Z.pow_0_r, Z.div_1_r. assert (H := Zdigits2_nonneg m). lia.
  - assert (H := Zdigits2_div_pow2_le m n Hm ltac:(lia)). lia.
Qed.

Lemma shift_top_ge (m n : Z) :
  0 < m -> 0 <= n < Zdigits2 m -> Zdigits2 m <= Zdigits2 (m / 2 ^ n) + n /\ 0 < m / 2 ^ n.
Proof.
  intros Hm Hn. destruct (Z.eq_dec n 0) as [->|Hz].
  - rewrite Z.pow_0_r, Z.div_1_r. lia.
  - assert (H := Zdigits2_div_pow2_ge m n Hm ltac:(lia)). lia.
Qed.

Lemma Zdigits2_shl (m k : Z) : 0 < m -> 0 <= k -> Zdigits2 (m * 2 ^ k) = Zdigits2 m + k.
Proof.
  intros Hm Hk.
  assert (Hu := Zdigits2_ub m ltac:(lia)). assert (Hl := Zdigits2_lb m Hm).
  assert (Hd : 0 < Zdigits2 m) by (destruct m; cbn in *; lia).
  assert (Hp : 0 < 2 ^ k) by (apply Z.pow_pos_nonneg; lia).
  apply Z.le_antisymm.
  - apply Zdigits2_le; [lia|]. rewrite Z.pow_add_r by lia. nia.
  - apply Zdigits2_ge; [|nia].
    replace (Zdigits2 m + k - 1) with (Zdigits2 m - 1 + k) by lia.
    rewrite Z.pow_add_r by lia. nia.
Qed.

Lemma iter_xO (m d : positive) : Zpos (Pos.iter xO m d) = Zpos m * 2 ^ Zpos d.
Proof.
  induction d as [|d IH] using Pos.peano_ind.
  - cbn [Pos.iter]. rewrite (Pos2Z.inj_xO m). change (2 ^ 1) with 2. lia.
  - rewrite Pos.iter_succ, (Pos2Z.inj_xO (Pos.iter xO m d)), IH, Pos2Z.inj_succ.
    rewrite Z.pow_succ_r by lia. lia.
Qed.

Lemma normal_in_weaken (lo hi lo' hi' : Z) (x : spec_float) :
  normal_in lo hi x -> lo' <= lo -> hi <= hi' -> normal_in lo' hi' x.
Proof. destruct x; cbn; intros; lia || assumption. Qed.

Lemma normal_in_finite_upto (lo hi : Z) (x : spec_float) :
  normal_in lo hi x -> finite_upto hi x.
Proof. destruct x; cbn; intros; lia || assumption. Qed.

(** ** Rounding to a given precision *)

(** Linear arithmetic with the least exponent unfolded. *)
Ltac elia := unfold emin in *; lia.

Section Rounding.

Variables prec emax : Z.
Hypothesis prec_pos : 0 < prec.
Hypothesis emax_big : 1 < emax.

Lemma fexp_eq (k : Z) : fexp prec emax k = Z.max (k - prec) (3 - emax - prec).
Proof. reflexivity. Qed.

Lemma shr_fexp_spec (m e : Z) (l : location) :
  0 <= m ->
  let r := shr_fexp prec emax m e l in
  snd r = Z.max e (fexp prec emax (Zdigits2 m + e)) /\
  shr_m (fst r) = m / 2 ^ (snd r - e).
Proof.
  intros Hm. unfold shr_fexp, shr.
  destruct (fexp prec emax (Zdigits2 m + e) - e) as [|p|p] eqn:E; cbn [fst snd].
  - split; [lia|]. rewrite Z.sub_diag, Z.pow_0_r, Z.div_1_r. apply shr_record_of_loc_m.
  - split; [lia|]. rewrite iter_shr_1_m by (rewrite shr_record_of_loc_m; assumption).
    rewrite shr_record_of_loc_m. f_equal. f_equal. lia.
  - split; [lia|]. rewrite Z.sub_diag, Z.pow_0_r, Z.div_1_r. apply shr_record_of_loc_m.
Qed.

Lemma binary_round_aux_not_nan (sx : bool) (mx ex : Z) (lx : location) :
  0 <= mx -> binary_round_aux prec emax sx mx ex lx <> S754_nan.
Proof.
  intros Hm. unfold binary_round_aux.
  destruct (shr_fexp prec emax mx ex lx) as [r1 e1] eqn:E1.
  assert (S1 := shr_fexp_spec mx ex lx Hm). rewrite E1 in S1. cbn [fst snd] in S1.
  destruct S1 as [He1 Hm1].
  assert (H1 : 0 <= shr_m r1).
  { rewrite Hm1. apply Z.div_pos; [lia|]. apply Z.pow_pos_nonneg; lia. }
  assert (Hr := round_nearest_even_bounds (shr_m r1) (loc_of_shr_record r1)).
  set (mr := round_nearest_even (shr_m r1) (loc_of_shr_record r1)) in *.
  destruct (shr_fexp prec emax mr e1 loc_Exact) as [r2 e2] eqn:E2.
  assert (S2 := shr_fexp_spec mr e1 loc_Exact ltac:(lia)). rewrite E2 in S2. cbn [fst snd] in S2.
  destruct S2 as [He2 Hm2].
  assert (H2 : 0 <= shr_m r2).
  { rewrite Hm2. apply Z.div_pos; [lia|]. apply Z.pow_pos_nonneg; lia. }
  destruct (shr_m r2); try discriminate; try lia.
  destruct (e2 <=? emax - prec); discriminate.
Qed.

(** Upper bound: the result is a zero or a finite number whose top bit is
    at most one above that of the argument, provided it fits. *)
Lemma binary_round_aux_upper (sx : bool) (mx ex : Z) (lx : location) (K : Z) :
  0 < mx -> Zdigits2 mx + ex <= K -> emin prec emax <= K -> K < emax ->
  ex <= emax - prec ->
  let x := binary_round_aux prec emax sx mx ex lx in
  finite_upto (K + 1) x /\ sign_of x = sx.
Proof.
  intros Hm HK HKmin HKmax Hex. unfold emin in *. unfold binary_round_aux.
  destruct (shr_fexp prec emax mx ex lx) as [r1 e1] eqn:E1.
  assert (S1 := shr_fexp_spec mx ex lx ltac:(lia)). rewrite E1 in S1. cbn [fst snd] in S1.
  destruct S1 as [He1 Hm1].
  assert (Hd : 0 < Zdigits2 mx) by (destruct mx; cbn in *; lia).
  assert (Hn1 : 0 <= e1 - ex) by lia.
  assert (H1 : 0 <= shr_m r1).
  { rewrite Hm1. apply Z.div_pos; [lia|]. apply Z.pow_pos_nonneg; lia. }
  assert (T1 := shift_top_le mx (e1 - ex) ltac:(lia) Hn1). rewrite <- Hm1 in T1.
  assert (Hr := round_nearest_even_bounds (shr_m r1) (loc_of_shr_record r1)).
  set (mr := round_nearest_even (shr_m r1) (loc_of_shr_record r1)) in *.
  assert (Dr : Zdigits2 mr <= Zdigits2 (shr_m r1) + 1).
  { transitivity (Zdigits2 (shr_m r1 + 1)); [apply Zdigits2_mono; lia|apply Zdigits2_succ; lia]. }
  assert (Dr0 := Zdigits2_nonneg mr).
  destruct (shr_fexp prec emax mr e1 loc_Exact) as [r2 e2] eqn:E2.
  assert (S2 := shr_fexp_spec mr e1 loc_Exact ltac:(lia)). rewrite E2 in S2. cbn [fst snd] in S2.
  destruct S2 as [He2 Hm2].
  assert (Hn2 : 0 <= e2 - e1) by lia.
  assert (H2 : 0 <= shr_m r2).
  { rewrite Hm2. apply Z.div_pos; [lia|]. apply Z.pow_pos_nonneg; lia. }
  assert (T2 := shift_top_le mr (e2 - e1) ltac:(lia) Hn2). rewrite <- Hm2 in T2.
  rewrite fexp_eq in He1, He2. unfold emin in *.
  destruct (shr_m r2) as [|m2|m2] eqn:Em2; [cbn; split; trivial| |lia].
  assert (Hle : e2 <= emax - prec) by lia.
  apply Z.leb_le in Hle. rewrite Hle. cbn [finite_upto sign_of].
  cbn [Zdigits2] in T2. split; [lia|reflexivity].
Qed.

(** Two-sided bound in the normal range: no underflow to zero. *)
Lemma binary_round_aux_normal (sx : bool) (mx ex : Z) (lx : location) :
  0 < mx -> emin prec emax + prec <= Zdigits2 mx + ex -> Zdigits2 mx + ex < emax ->
  ex <= emax - prec ->
  let x := binary_round_aux prec emax sx mx ex lx in
  normal_in (Zdigits2 mx + ex) (Zdigits2 mx + ex + 1) x /\ sign_of x = sx.
Proof.
  intros Hm Hlo Hhi Hex. unfold emin in *.
  assert (emin_le : emin prec emax <= Zdigits2 mx + ex) by (unfold emin; lia).
  assert (U := binary_round_aux_upper sx mx ex lx (Zdigits2 mx + ex) Hm ltac:(lia) emin_le Hhi Hex).
  cbv zeta in U. destruct U as [Ut Us].
  revert Us Ut. unfold binary_round_aux.
  destruct (shr_fexp prec emax mx ex lx) as [r1 e1] eqn:E1.
  assert (S1 := shr_fexp_spec mx ex lx ltac:(lia)). rewrite E1 in S1. cbn [fst snd] in S1.
  destruct S1 as [He1 Hm1].
  assert (Hd : 0 < Zdigits2 mx) by (destruct mx; cbn in *; lia).
  rewrite fexp_eq in He1. unfold emin in *.
  assert (Hn1 : 0 <= e1 - ex < Zdigits2 mx) by lia.
  assert (T1 := shift_top_ge mx (e1 - ex) Hm Hn1). rewrite <- Hm1 in T1.
  destruct T1 as [T1 P1].
  assert (Hr := round_nearest_even_bounds (shr_m r1) (loc_of_shr_record r1)).
  set (mr := round_nearest_even (shr_m r1) (loc_of_shr_record r1)) in *.
  assert (Dr : Zdigits2 (shr_m r1) <= Zdigits2 mr) by (apply Zdigits2_mono; lia).
  destruct (shr_fexp prec emax mr e1 loc_Exact) as [r2 e2] eqn:E2.
  assert (S2 := shr_fexp_spec mr e1 loc_Exact ltac:(lia)). rewrite E2 in S2. cbn [fst snd] in S2.
  destruct S2 as [He2 Hm2].
  rewrite fexp_eq in He2.
  assert (Hn2 : 0 <= e2 - e1 < Zdigits2 mr) by lia.
  assert (T2 := shift_top_ge mr (e2 - e1) ltac:(lia) Hn2). rewrite <- Hm2 in T2.
  destruct T2 as [T2 P2].
  destruct (shr_m r2) as [|m2|m2] eqn:Em2; [lia| |lia].
  destruct (e2 <=? emax - prec) eqn:Ele; cbn [normal_in finite_upto sign_of]; intros Us Ut.
  - cbn [Zdigits2] in T2. repeat split; try lia.
  - exfalso. apply Z.leb_gt in Ele.
    assert (T3 := shift_top_le mr (e2 - e1) ltac:(lia) ltac:(lia)). rewrite <- Hm2 in T3.
    assert (T0 := shift_top_le mx (e1 - ex) ltac:(lia) ltac:(lia)). rewrite <- Hm1 in T0.
    assert (Dr' : Zdigits2 mr <= Zdigits2 (shr_m r1) + 1).
    { transitivity (Zdigits2 (shr_m r1 + 1)); [apply Zdigits2_mono; lia|apply Zdigits2_succ; lia]. }
    lia.
Qed.


Lemma shl_align_spec (mx : positive) (ex ex' : Z) :
  let r := shl_align mx ex ex' in
  snd r = Z.min ex ex' /\ Zpos (fst r) = Zpos mx * 2 ^ (ex - snd r).
Proof.
  unfold shl_align. destruct (ex' - ex) as [|d|d] eqn:E; cbn [fst snd].
  - split; [lia|]. rewrite Z.sub_diag, Z.pow_0_r. lia.
  - split; [lia|]. rewrite Z.sub_diag, Z.pow_0_r. lia.
  - split; [lia|]. rewrite iter_xO. f_equal. f_equal. lia.
Qed.

Lemma shl_align_top (mx : positive) (ex ex' : Z) :
  let r := shl_align mx ex ex' in
  snd r <= ex /\ Zdigits2 (Zpos (fst r)) + snd r = Zdigits2 (Zpos mx) + ex.
Proof.
  destruct (shl_align_spec mx ex ex') as [He Hm]. cbv zeta.
  split; [lia|]. rewrite Hm, Zdigits2_shl by lia. lia.
Qed.

Lemma binary_round_not_nan (sx : bool) (mx : positive) (ex : Z) :
  binary_round prec emax sx mx ex <> S754_nan.
Proof.
  unfold binary_round.
  destruct (shl_align mx ex (fexp prec emax (Zpos (digits2_pos mx) + ex))) as [mz ez].
  apply binary_round_aux_not_nan. elia.
Qed.

Lemma binary_round_normal (sx : bool) (mx : positive) (ex : Z) :
  let D := Zpos (digits2_pos mx) + ex in
  emin prec emax + prec <= D -> D < emax -> ex <= emax - prec ->
  normal_in D (D + 1) (binary_round prec emax sx mx ex) /\
  sign_of (binary_round prec emax sx mx ex) = sx.
Proof.
  intros D Hlo Hhi Hex. unfold emin in *. unfold binary_round. subst D.
  assert (T := shl_align_top mx ex (fexp prec emax (Zpos (digits2_pos mx) + ex))).
  destruct (shl_align mx ex (fexp prec emax (Zpos (digits2_pos mx) + ex))) as [mz ez].
  cbn [fst snd Zdigits2] in T. destruct T as [Te Td].
  rewrite <- Td.
  apply (binary_round_aux_normal sx (Zpos mz) ez loc_Exact); cbn [Zdigits2]; elia.
Qed.

Lemma binary_normalize_normal (z : Z) (k : Z) :
  z <> 0 -> Z.abs z < 2 ^ k -> 0 <= k -> k < emax ->
  emin prec emax + prec <= 1 -> 0 <= emax - prec ->
  normal_in 1 (k + 1) (binary_normalize prec emax z 0 false) /\
  sign_of (binary_normalize prec emax z 0 false) = (z <? 0).
Proof.
  intros Hz Hk Hk0 Hke Hlo Hhi. unfold emin in *.
  assert (D : forall p, Zpos p < 2 ^ k -> 1 <= Zpos (digits2_pos p) + 0 <= k).
  { intros p Hp. assert (H := Zdigits2_le (Zpos p) k Hk0 ltac:(elia)). cbn [Zdigits2] in H. elia. }
  destruct z as [|p|p]; [contradiction| |]; cbn [binary_normalize].
  - destruct (binary_round_normal false p 0) as [N S]; try (specialize (D p ltac:(elia)); elia).
    split; [|exact S]. eapply normal_in_weaken; [exact N| |]; specialize (D p ltac:(elia)); elia.
  - destruct (binary_round_normal true p 0) as [N S]; try (specialize (D p ltac:(elia)); elia).
    split; [|exact S]. eapply normal_in_weaken; [exact N| |]; specialize (D p ltac:(elia)); elia.
Qed.

(** Products. *)
Lemma SFmul_upper (x y : spec_float) (K1 K2 : Z) :
  finite_upto K1 x -> finite_upto K2 y ->
  emin prec emax <= K1 + K2 -> K1 + K2 < emax -> K1 + K2 - 2 <= emax - prec ->
  finite_upto (K1 + K2 + 1) (SFmul prec emax x y).
Proof.
  intros Hx Hy Hlo Hhi Hex. unfold emin in *.
  destruct x as [sx|sx| |sx mx ex], y as [sy|sy| |sy my ey]; cbn [finite_upto] in Hx, Hy; try contradiction;
    cbn [SFmul finite_upto]; trivial.
  assert (Hd := Zdigits2_mul (Zpos mx) (Zpos my) ltac:(elia) ltac:(elia)). cbn [Zdigits2] in Hd.
  change (Zpos mx * Zpos my) with (Zpos (mx * my)) in Hd. cbn [Zdigits2] in Hd.
  apply binary_round_aux_upper; cbn [Zdigits2]; elia.
Qed.

Lemma SFmul_normal (x y : spec_float) (a b c d : Z) :
  normal_in a b x -> normal_in c d y ->
  emin prec emax + prec <= a + c - 1 -> b + d < emax -> b + d - 2 <= emax - prec ->
  normal_in (a + c - 1) (b + d + 1) (SFmul prec emax x y) /\
  sign_of (SFmul prec emax x y) = xorb (sign_of x) (sign_of y).
Proof.
  intros Hx Hy Hlo Hhi Hex. unfold emin in *.
  destruct x as [sx|sx| |sx mx ex], y as [sy|sy| |sy my ey]; cbn [normal_in] in Hx, Hy; try contradiction.
  cbn [SFmul sign_of].
  assert (Hd := Zdigits2_mul (Zpos mx) (Zpos my) ltac:(elia) ltac:(elia)).
  assert (Hg := Zdigits2_mul_ge (Zpos mx) (Zpos my) ltac:(elia) ltac:(elia)).
  change (Zpos mx * Zpos my) with (Zpos (mx * my)) in Hd, Hg. cbn [Zdigits2] in Hd, Hg.
  destruct (binary_round_aux_normal (xorb sx sy) (Zpos (mx * my)) (ex + ey) loc_Exact) as [N S];
    cbn [Zdigits2]; try elia.
  split; [|exact S]. eapply normal_in_weaken; [exact N| |]; cbn [Zdigits2]; elia.
Qed.

Lemma SFmul_zero_r (x : spec_float) (K : Z) (s : bool) :
  finite_upto K x -> SFmul prec emax x (S754_zero s) = S754_zero (xorb (sign_of x) s).
Proof. destruct x; cbn; intros H; try contradiction; reflexivity. Qed.

(** Sums. *)
Lemma SFadd_not_nan (x y : spec_float) (K1 K2 : Z) :
  finite_upto K1 x -> finite_upto K2 y -> SFadd prec emax x y <> S754_nan.
Proof.
  intros Hx Hy.
  destruct x as [sx|sx| |sx mx ex], y as [sy|sy| |sy my ey]; cbn [finite_upto] in Hx, Hy; try contradiction;
    cbn [SFadd]; try discriminate.
  - destruct sx, sy; discriminate.
  - destruct (cond_Zopp sx (Zpos (fst (shl_align mx ex (Z.min ex ey)))) +
              cond_Zopp sy (Zpos (fst (shl_align my ey (Z.min ex ey))))) as [|p|p];
      cbn [binary_normalize]; try discriminate; apply binary_round_not_nan.
Qed.


(** *** Results are in canonical form *)

Lemma div_pow2_digits (m n : Z) :
  0 <= m -> 0 <= n -> 0 < m / 2 ^ n -> Zdigits2 (m / 2 ^ n) + n = Zdigits2 m.
Proof.
  intros Hm Hn Hq.
  destruct (Z.eq_dec n 0) as [->|Hz]; [rewrite Z.pow_0_r, Z.div_1_r; lia|].
  assert (Hle := Zdigits2_div_pow2_le m n Hm ltac:(lia)).
  assert (H1 : 1 <= Zdigits2 (m / 2 ^ n)) by (destruct (m / 2 ^ n); cbn in *; lia).
  assert (Hm0 : 0 < m).
  { destruct (Z.eq_dec m 0) as [->|]; [rewrite Z.div_0_l in Hq by (apply Z.pow_nonzero; lia); lia|lia]. }
  assert (Hge := Zdigits2_div_pow2_ge m n Hm0 ltac:(lia)). lia.
Qed.

Lemma div_pow2_zero_digits (m n : Z) :
  0 <= m -> 0 <= n -> m / 2 ^ n = 0 -> Zdigits2 m <= n.
Proof.
  intros Hm Hn Hq. apply Zdigits2_le; [assumption|].
  split; [assumption|]. apply Z.div_small_iff in Hq; [|apply Z.pow_nonzero; lia].
  assert (0 < 2 ^ n) by (apply Z.pow_pos_nonneg; lia). lia.
Qed.

Lemma binary_round_aux_valid (sx : bool) (mx ex : Z) (lx : location) :
  0 < mx -> ex <= fexp prec emax (Zdigits2 mx + ex) ->
  valid_binary prec emax (binary_round_aux prec emax sx mx ex lx) = true.
Proof.
  intros Hm Hpre. unfold binary_round_aux.
  destruct (shr_fexp prec emax mx ex lx) as [r1 e1] eqn:E1.
  assert (S1 := shr_fexp_spec mx ex lx ltac:(lia)). rewrite E1 in S1. cbn [fst snd] in S1.
  destruct S1 as [He1 Hm1].
  assert (Hd : 0 < Zdigits2 mx) by (destruct mx; cbn in *; lia).
  assert (Hp1 : 0 < 2 ^ (e1 - ex)) by (apply Z.pow_pos_nonneg; lia).
  assert (H1 : 0 <= shr_m r1) by (rewrite Hm1; apply Z.div_pos; lia).
  assert (Hr := round_nearest_even_bounds (shr_m r1) (loc_of_shr_record r1)).
  set (mr := round_nearest_even (shr_m r1) (loc_of_shr_record r1)) in *.
  destruct (shr_fexp prec emax mr e1 loc_Exact) as [r2 e2] eqn:E2.
  assert (S2 := shr_fexp_spec mr e1 loc_Exact ltac:(lia)). rewrite E2 in S2. cbn [fst snd] in S2.
  destruct S2 as [He2 Hm2].
  destruct (shr_m r2) as [|m2|m2] eqn:Em2; try reflexivity.
  destruct (e2 <=? emax - prec) eqn:Ele; [|reflexivity].
  cbn [valid_binary]. unfold bounded. rewrite Ele, andb_true_r.
  unfold canonical_mantissa. apply Z.eqb_eq.
  assert (Hq2 : 0 < mr / 2 ^ (e2 - e1)) by lia.
  assert (T2 := div_pow2_digits mr (e2 - e1) ltac:(lia) ltac:(lia) Hq2).
  rewrite <- Hm2 in T2. cbn [Zdigits2] in T2.
  assert (Hmr : 0 < mr).
  { destruct (Z.eq_dec mr 0) as [E|]; [|lia].
    rewrite E, Z.div_0_l in Hq2 by (apply Z.pow_nonzero; lia). lia. }
  destruct (Z.eq_dec (shr_m r1) 0) as [Ez|Hnz].
  - (* everything was shifted out, and the rounding produced one unit *)
    assert (Emr : mr = 1) by lia.
    assert (Hdx := div_pow2_zero_digits mx (e1 - ex) ltac:(lia) ltac:(lia) ltac:(lia)).
    rewrite Emr in *. cbn [Zdigits2 digits2_pos] in *.
    rewrite fexp_eq in *. lia.
  - assert (T1 := div_pow2_digits mx (e1 - ex) ltac:(lia) ltac:(lia) ltac:(lia)).
    rewrite <- Hm1 in T1.
    assert (Dr : Zdigits2 (shr_m r1) <= Zdigits2 mr) by (apply Zdigits2_mono; lia).
    rewrite fexp_eq in *. lia.
Qed.

Lemma binary_round_valid (sx : bool) (mx : positive) (ex : Z) :
  valid_binary prec emax (binary_round prec emax sx mx ex) = true.
Proof.
  unfold binary_round.
  assert (T := shl_align_top mx ex (fexp prec emax (Zpos (digits2_pos mx) + ex))).
  assert (S := shl_align_spec mx ex (fexp prec emax (Zpos (digits2_pos mx) + ex))).
  destruct (shl_align mx ex (fexp prec emax (Zpos (digits2_pos mx) + ex))) as [mz ez].
  cbn [fst snd Zdigits2] in T, S. destruct T as [Te Td]. destruct S as [Se _].
  apply binary_round_aux_valid; [lia|]. cbn [Zdigits2]. rewrite Td. lia.
Qed.

Lemma binary_normalize_valid (m e : Z) (s : bool) :
  valid_binary prec emax (binary_normalize prec emax m e s) = true.
Proof. destruct m; cbn [binary_normalize]; try reflexivity; apply binary_round_valid. Qed.

Lemma SFmul_valid (x y : spec_float) :
  valid_binary prec emax x = true -> valid_binary prec emax y = true ->
  valid_binary prec emax (SFmul prec emax x y) = true.
Proof.
  destruct x as [sx|sx| |sx mx ex], y as [sy|sy| |sy my ey]; cbn [SFmul]; try reflexivity.
  cbn [valid_binary]. unfold bounded, canonical_mantissa.
  intros Hx Hy. apply andb_true_iff in Hx, Hy. destruct Hx as [Hx _], Hy as [Hy _].
  apply Z.eqb_eq in Hx, Hy. rewrite fexp_eq in Hx, Hy.
  apply binary_round_aux_valid; [lia|]. rewrite fexp_eq.
  assert (Hg := Zdigits2_mul_ge (Zpos mx) (Zpos my) ltac:(lia) ltac:(lia)).
  change (Zpos mx * Zpos my) with (Zpos (mx * my)) in Hg. cbn [Zdigits2] in *. lia.
Qed.

Lemma SFadd_valid (x y : spec_float) :
  valid_binary prec emax x = true -> valid_binary prec emax y = true ->
  valid_binary prec emax (SFadd prec emax x y) = true.
Proof.
  destruct x as [sx|sx| |sx mx ex], y as [sy|sy| |sy my ey]; cbn [SFadd];
    intros Hx Hy; try reflexivity; try assumption.
  - destruct sx, sy; reflexivity.
  - destruct sx, sy; reflexivity.
  - apply binary_normalize_valid.
Qed.

(** *** The order of canonical floats

    On canonical representations the order by value is the lexicographic
    order on exponent and significand that [SFcompare] implements. *)

Lemma canonical_digits (m : positive) (e : Z) :
  canonical_mantissa prec emax m e = true ->
  Zpos (digits2_pos m) <= prec /\
  (emin prec emax < e -> Zpos (digits2_pos m) = prec) /\
  emin prec emax <= e.
Proof.
  unfold canonical_mantissa. intros H. apply Z.eqb_eq in H.
  rewrite fexp_eq in H. unfold emin. lia.
Qed.

Lemma cmp_canonical_lt (m1 m2 : positive) (e1 e2 : Z) :
  canonical_mantissa prec emax m1 e1 = true ->
  canonical_mantissa prec emax m2 e2 = true ->
  e1 < e2 ->
  Zpos m1 < Zpos m2 * 2 ^ (e2 - e1).
Proof.
  intros C1 C2 Hlt.
  destruct (canonical_digits _ _ C1) as (D1 & _ & L1).
  destruct (canonical_digits _ _ C2) as (_ & N2 & _).
  specialize (N2 ltac:(lia)).
  assert (U1 := digits2_pos_bounds m1). assert (B2 := digits2_pos_bounds m2).
  rewrite N2 in B2.
  assert (P1 : 2 ^ Zpos (digits2_pos m1) <= 2 ^ prec) by (apply Z.pow_le_mono_r; lia).
  assert (P2 : 2 ^ prec = 2 * 2 ^ (prec - 1)).
  { replace prec with (Z.succ (prec - 1)) at 1 by lia. apply Z.pow_succ_r. lia. }
  assert (P3 : 2 ^ 1 <= 2 ^ (e2 - e1)) by (apply Z.pow_le_mono_r; lia).
  change (2 ^ 1) with 2 in P3.
  assert (0 < 2 ^ (prec - 1)) by (apply Z.pow_pos_nonneg; lia).
  nia.
Qed.

Lemma cmp_canonical (m1 m2 : positive) (e1 e2 : Z) :
  canonical_mantissa prec emax m1 e1 = true ->
  canonical_mantissa prec emax m2 e2 = true ->
  (Zpos m1 * 2 ^ (e1 - Z.min e1 e2) ?= Zpos m2 * 2 ^ (e2 - Z.min e1 e2))
  = match e1 ?= e2 with
    | Lt => Lt
    | Gt => Gt
    | Eq => Pos.compare_cont Eq m1 m2
    end.
Proof.
  intros C1 C2. destruct (Z.compare_spec e1 e2) as [E|L|G].
  - subst e2. rewrite Z.min_id, Z.sub_diag, Z.pow_0_r, !Z.mul_1_r. reflexivity.
  - rewrite Z.min_l, Z.sub_diag, Z.pow_0_r, Z.mul_1_r by lia.
    apply Z.compare_lt_iff. apply cmp_canonical_lt; assumption.
  - rewrite Z.min_r, Z.sub_diag, Z.pow_0_r, Z.mul_1_r by lia.
    apply Z.compare_gt_iff. apply cmp_canonical_lt; assumption.
Qed.

Lemma compare_SFcompare (x y : spec_float) :
  valid_binary prec emax x = true -> valid_binary prec emax y = true ->
  F32.compare x y = SFcompare x y.
Proof.
  destruct x as [sx|sx| |sx mx ex], y as [sy|sy| |sy my ey];
    cbn [valid_binary F32.compare SFcompare]; intros Hx Hy; try reflexivity.
  - (* zero, finite *)
    f_equal. unfold F32.cmp_finite. cbn [F32.sig F32.expo].
    assert (0 < 2 ^ (ey - Z.min 0 ey)) by (apply Z.pow_pos_nonneg; lia).
    destruct sy; cbn [cond_Zopp]; [apply Z.compare_gt_iff|apply Z.compare_lt_iff]; nia.
  - (* finite, zero *)
    f_equal. unfold F32.cmp_finite. cbn [F32.sig F32.expo].
    assert (0 < 2 ^ (ex - Z.min ex 0)) by (apply Z.pow_pos_nonneg; lia).
    destruct sx; cbn [cond_Zopp]; [apply Z.compare_lt_iff|apply Z.compare_gt_iff]; nia.
  - (* finite, finite *)
    f_equal. unfold bounded in Hx, Hy.
    apply andb_true_iff in Hx, Hy. destruct Hx as [Cx _], Hy as [Cy _].
    unfold F32.cmp_finite. cbn [F32.sig F32.expo].
    assert (Px : 0 < 2 ^ (ex - Z.min ex ey)) by (apply Z.pow_pos_nonneg; lia).
    assert (Py : 0 < 2 ^ (ey - Z.min ex ey)) by (apply Z.pow_pos_nonneg; lia).
    destruct sx, sy; cbn [cond_Zopp].
    + replace (- Zpos mx * 2 ^ (ex - Z.min ex ey))
        with (- (Zpos mx * 2 ^ (ex - Z.min ex ey))) by lia.
      replace (- Zpos my * 2 ^ (ey - Z.min ex ey))
        with (- (Zpos my * 2 ^ (ey - Z.min ex ey))) by lia.
      rewrite Z.compare_opp, Z.compare_antisym, (cmp_canonical mx my ex ey Cx Cy).
      destruct (ex ?= ey); reflexivity.
    + apply Z.compare_lt_iff. nia.
    + apply Z.compare_gt_iff. nia.
    + apply cmp_canonical; assumption.
Qed.

End Rounding.

(** ** Single precision *)

Lemma Kp_init_value : Kp_init = S754_finite false 16441672 (-24).
Proof. reflexivity. Qed.

Lemma Ki_init_value : Ki_init = S754_finite false 8808038 (-22).
Proof. reflexivity. Qed.

(** The initialisers are the binary32 numbers nearest to 0.98 and 2.1: the
    same values result from a correctly rounded single-precision division. *)
Lemma Kp_init_nearest : SFdiv 24 128 (F32.of_Z 98) (F32.of_Z 100) = Kp_init.
Proof. reflexivity. Qed.

Lemma Ki_init_nearest : SFdiv 24 128 (F32.of_Z 21) (F32.of_Z 10) = Ki_init.
Proof. reflexivity. Qed.

Lemma of_Z_MAX_PWM : F32.of_Z MAX_PWM = S754_finite false 13041664 (-16).
Proof. reflexivity. Qed.

Lemma of_Z_MIN_PWM : F32.of_Z MIN_PWM = S754_finite false 15728640 (-20).
Proof. reflexivity. Qed.

Lemma of_Z_0 : F32.of_Z 0 = S754_zero false.
Proof. reflexivity. Qed.

Lemma of_Z_normal (z : Z) :
  z <> 0 -> Z.abs z < 2 ^ 32 ->
  normal_in 1 33 (F32.of_Z z) /\ sign_of (F32.of_Z z) = (z <? 0).
Proof.
  intros Hz Hb. unfold F32.of_Z. change 33 with (32 + 1).
  apply (binary_normalize_normal F32.prec F32.emax); unfold F32.prec, F32.emax, emin; lia.
Qed.

Lemma of_Z_finite (z : Z) : Z.abs z < 2 ^ 32 -> finite_upto 33 (F32.of_Z z).
Proof.
  intros Hb. destruct (Z.eq_dec z 0) as [->|Hz].
  - rewrite of_Z_0. exact I.
  - destruct (of_Z_normal z Hz Hb) as [N _]. exact (normal_in_finite_upto _ _ _ N).
Qed.

Lemma mul_upper (x y : F32.float) (K1 K2 : Z) :
  finite_upto K1 x -> finite_upto K2 y ->
  -149 <= K1 + K2 <= 106 ->
  finite_upto (K1 + K2 + 1) (F32.mul x y).
Proof.
  intros Hx Hy HK. unfold F32.mul.
  apply SFmul_upper; unfold F32.prec, F32.emax, emin; trivial; lia.
Qed.

Lemma mul_normal (x y : F32.float) (a b c d : Z) :
  normal_in a b x -> normal_in c d y ->
  -124 <= a + c -> b + d <= 106 ->
  normal_in (a + c - 1) (b + d + 1) (F32.mul x y) /\
  sign_of (F32.mul x y) = xorb (sign_of x) (sign_of y).
Proof.
  intros Hx Hy Hlo Hhi. unfold F32.mul.
  apply SFmul_normal; unfold F32.prec, F32.emax, emin; trivial; lia.
Qed.

Lemma add_not_nan (x y : F32.float) (K1 K2 : Z) :
  finite_upto K1 x -> finite_upto K2 y -> F32.is_nan (F32.add x y) = false.
Proof.
  intros Hx Hy.
  assert (H : SFadd F32.prec F32.emax x y <> S754_nan).
  { apply SFadd_not_nan with (K1 := K1) (K2 := K2);
      unfold F32.prec, F32.emax, emin; trivial; lia. }
  unfold F32.add. destruct (SFadd F32.prec F32.emax x y); trivial. contradiction.
Qed.

(** Adding a zero to a finite non-zero number returns that number. *)
Lemma add_zero_r (x : F32.float) (lo hi : Z) (s : bool) :
  normal_in lo hi x -> F32.add x (S754_zero s) = x.
Proof. destruct x; cbn [normal_in]; intros H; try contradiction. reflexivity. Qed.

(** ** Comparison and truncation *)

Lemma compare_antisym (x y : F32.float) (c : comparison) :
  F32.compare x y = Some c -> F32.compare y x = Some (CompOpp c).
Proof.
  assert (F : forall a b, F32.cmp_finite b a = CompOpp (F32.cmp_finite a b)).
  { intros a b. unfold F32.cmp_finite. rewrite (Z.min_comm (F32.expo b)).
    apply Z.compare_antisym. }
  destruct x as [sx|sx| |sx mx ex], y as [sy|sy| |sy my ey]; cbn [F32.compare];
    intros H; inversion H; subst; clear H;
    try (rewrite F; reflexivity);
    try (destruct sx; reflexivity); try (destruct sy; reflexivity).
  destruct sx, sy; reflexivity.
Qed.

(** A float that is not above the integer [N = mN * 2 ^ (- j)] truncates to
    at most [N]; one that is not below truncates to at least [N]. *)
Lemma trunc_le_of_not_gt (N j : Z) (mN m : positive) (e : Z) :
  0 <= j -> Zpos mN = N * 2 ^ j ->
  F32.cmp_finite (S754_finite false mN (- j)) (S754_finite false m e) <> Lt ->
  F32.trunc (S754_finite false m e) <= N.
Proof.
  intros Hj HN. unfold F32.cmp_finite, F32.trunc. cbn [F32.sig F32.expo cond_Zopp].
  set (k := Z.min (- j) e). intros H.
  assert (Hle : Zpos m * 2 ^ (e - k) <= Zpos mN * 2 ^ (- j - k)).
  { destruct (Z.compare_spec (Zpos mN * 2 ^ (- j - k)) (Zpos m * 2 ^ (e - k)));
      [lia|congruence|lia]. }
  assert (Hk : 0 < 2 ^ (- k)) by (apply Z.pow_pos_nonneg; lia).
  assert (Ha : Zpos mN * 2 ^ (- j - k) = N * 2 ^ (- k)).
  { rewrite HN, <- Z.mul_assoc, <- Z.pow_add_r by lia. f_equal. f_equal. lia. }
  rewrite Ha in Hle.
  destruct (0 <=? e) eqn:Ee.
  - apply Z.leb_le in Ee.
    replace (e - k) with (e + - k) in Hle by lia.
    rewrite Z.pow_add_r, Z.mul_assoc in Hle by lia.
    apply Z.mul_le_mono_pos_r in Hle; assumption.
  - apply Z.leb_gt in Ee.
    assert (He : 0 < 2 ^ (- e)) by (apply Z.pow_pos_nonneg; lia).
    assert (Hs : 0 < 2 ^ (e - k)) by (apply Z.pow_pos_nonneg; lia).
    replace (- k) with ((e - k) + - e) in Hle by lia.
    rewrite Z.pow_add_r in Hle by lia.
    rewrite Z.quot_div_nonneg by lia.
    apply Z.div_le_upper_bound; [assumption|]. nia.
Qed.

Lemma trunc_ge_of_not_lt (N j : Z) (mN m : positive) (e : Z) :
  0 <= j -> Zpos mN = N * 2 ^ j ->
  F32.cmp_finite (S754_finite false m e) (S754_finite false mN (- j)) <> Lt ->
  N <= F32.trunc (S754_finite false m e).
Proof.
  intros Hj HN. unfold F32.cmp_finite, F32.trunc. cbn [F32.sig F32.expo cond_Zopp].
  rewrite (Z.min_comm e). set (k := Z.min (- j) e). intros H.
  assert (Hle : Zpos mN * 2 ^ (- j - k) <= Zpos m * 2 ^ (e - k)).
  { destruct (Z.compare_spec (Zpos m * 2 ^ (e - k)) (Zpos mN * 2 ^ (- j - k)));
      [lia|congruence|lia]. }
  assert (Hk : 0 < 2 ^ (- k)) by (apply Z.pow_pos_nonneg; lia).
  assert (Ha : Zpos mN * 2 ^ (- j - k) = N * 2 ^ (- k)).
  { rewrite HN, <- Z.mul_assoc, <- Z.pow_add_r by lia. f_equal. f_equal. lia. }
  rewrite Ha in Hle.
  destruct (0 <=? e) eqn:Ee.
  - apply Z.leb_le in Ee.
    replace (e - k) with (e + - k) in Hle by lia.
    rewrite Z.pow_add_r, Z.mul_assoc in Hle by lia.
    apply Z.mul_le_mono_pos_r in Hle; assumption.
  - apply Z.leb_gt in Ee.
    assert (He : 0 < 2 ^ (- e)) by (apply Z.pow_pos_nonneg; lia).
    assert (Hs : 0 < 2 ^ (e - k)) by (apply Z.pow_pos_nonneg; lia).
    replace (- k) with ((e - k) + - e) in Hle by lia.
    rewrite Z.pow_add_r in Hle by lia.
    rewrite Z.quot_div_nonneg by lia.
    apply Z.div_le_lower_bound; [assumption|]. nia.
Qed.

(** A float that passes both tests of the saturation unchanged converts to a
    compare value within the duty range. *)
Lemma to_u32_between (x : F32.float) :
  F32.is_nan x = false ->
  F32.gtb x (F32.of_Z MAX_PWM) = false ->
  F32.ltb x (F32.of_Z MIN_PWM) = false ->
  exists c, F32.to_u32 x = Some c /\ MIN_PWM <= c <= MAX_PWM.
Proof.
  rewrite of_Z_MAX_PWM, of_Z_MIN_PWM. unfold F32.gtb, F32.ltb.
  destruct x as [s|s| |s m e]; cbn [F32.is_nan F32.compare]; intros Hn Hg Hl.
  - discriminate Hl.
  - destruct s; discriminate.
  - discriminate.
  - destruct s.
    + exfalso. revert Hl. unfold F32.cmp_finite. cbn [F32.sig F32.expo cond_Zopp].
      set (k := Z.min e (-20)).
      assert (0 < 2 ^ (e - k)) by (apply Z.pow_pos_nonneg; lia).
      assert (0 < 2 ^ (-20 - k)) by (apply Z.pow_pos_nonneg; lia).
      destruct (Z.compare_spec (- Zpos m * 2 ^ (e - k)) (15728640 * 2 ^ (-20 - k)));
        try discriminate; nia.
    + assert (Hu : F32.trunc (S754_finite false m e) <= 199).
      { apply (trunc_le_of_not_gt 199 16 13041664); [lia|reflexivity|].
        change (- (16)) with (-16). intros E. rewrite E in Hg. discriminate. }
      assert (Hd : 15 <= F32.trunc (S754_finite false m e)).
      { apply (trunc_ge_of_not_lt 15 20 15728640); [lia|reflexivity|].
        change (- (20)) with (-20). intros E. rewrite E in Hl. discriminate. }
      exists (F32.trunc (S754_finite false m e)). unfold MIN_PWM, MAX_PWM.
      split; [|lia]. cbn [F32.to_u32].
      replace (0 <=? F32.trunc (S754_finite false m e)) with true
        by (symmetry; apply Z.leb_le; lia).
      replace (F32.trunc (S754_finite false m e) <? 2 ^ 32) with true
        by (symmetry; apply Z.ltb_lt; lia).
      reflexivity.
Qed.

Lemma to_u32_some_not_nan (x : F32.float) (c : Z) :
  F32.to_u32 x = Some c -> F32.is_nan x = false.
Proof. destruct x; cbn; intros H; try discriminate; reflexivity. Qed.

Lemma duty_ok_between (x : F32.float) :
  F32.is_nan x = false ->
  F32.gtb x (F32.of_Z MAX_PWM) = false ->
  F32.ltb x (F32.of_Z MIN_PWM) = false ->
  duty_ok x = true.
Proof.
  unfold duty_ok, F32.gtb, F32.ltb, F32.leb. intros Hn Hg Hl.
  destruct (F32.compare x (F32.of_Z MIN_PWM)) as [c|] eqn:E1.
  - rewrite (compare_antisym _ _ _ E1).
    destruct (F32.compare x (F32.of_Z MAX_PWM)) as [d|] eqn:E2.
    + rewrite (compare_antisym _ _ _ E2) in Hg.
      destruct c, d; cbn in *; congruence.
    + exfalso. rewrite of_Z_MAX_PWM in E2. destruct x as [| | |]; cbn in E2, Hn; try discriminate;
        destruct s; discriminate.
  - exfalso. rewrite of_Z_MIN_PWM in E1. destruct x as [| | |]; cbn in E1, Hn; try discriminate;
        destruct s; discriminate.
Qed.

(** ** Canonical form

    Every float the module computes is in canonical form, and on canonical
    floats the order by value used by [F32.ltb] is the order of
    [SpecFloat.SFltb]. *)

Lemma valid32_of_Z (z : Z) : valid32 (F32.of_Z z) = true.
Proof.
  unfold valid32, F32.of_Z.
  apply binary_normalize_valid; unfold F32.prec, F32.emax; lia.
Qed.

Lemma valid32_Kp_init : valid32 Kp_init = true.
Proof. vm_compute. reflexivity. Qed.

Lemma valid32_Ki_init : valid32 Ki_init = true.
Proof. vm_compute. reflexivity. Qed.

Lemma valid32_mul (x y : F32.float) :
  valid32 x = true -> valid32 y = true -> valid32 (F32.mul x y) = true.
Proof.
  unfold valid32, F32.mul. apply SFmul_valid; unfold F32.prec, F32.emax; lia.
Qed.

Lemma valid32_add (x y : F32.float) :
  valid32 x = true -> valid32 y = true -> valid32 (F32.add x y) = true.
Proof.
  unfold valid32, F32.add. apply SFadd_valid; unfold F32.prec, F32.emax; lia.
Qed.

Lemma ltb_SFltb (x y : F32.float) :
  valid32 x = true -> valid32 y = true -> F32.ltb x y = SFltb x y.
Proof.
  intros Hx Hy. unfold F32.ltb, SFltb.
  rewrite (compare_SFcompare F32.prec F32.emax) by
    (assumption || unfold F32.prec, F32.emax; lia).
  reflexivity.
Qed.

(** * The regulation tick *)

Arguments F32.of_Z : simpl never.
Arguments F32.mul : simpl never.
Arguments F32.add : simpl never.
Arguments F32.gtb : simpl never.
Arguments F32.ltb : simpl never.
Arguments F32.to_u32 : simpl never.
Arguments u32 : simpl never.
Arguments s32 : simpl never.

(** ** Integer reductions *)

Lemma u32_id (z : Z) : is_u32 z -> u32 z = z.
Proof. unfold is_u32, u32. intros H. apply Z.mod_small. lia. Qed.

Lemma s32_id (z : Z) : is_s32 z -> s32 z = z.
Proof. unfold is_s32, s32. intros H. rewrite Z.mod_small; lia. Qed.

Lemma s32_range (z : Z) : is_s32 (s32 z).
Proof.
  unfold is_s32, s32.
  assert (H := Z.mod_pos_bound (z + 2 ^ 31) (2 ^ 32) ltac:(lia)). lia.
Qed.

Lemma s32_u32 (z : Z) : s32 (u32 z) = s32 z.
Proof.
  unfold s32, u32. f_equal.
  rewrite <- (Z.add_mod_idemp_l z) by lia. reflexivity.
Qed.

(** Subtracting what was added restores the accumulator, also when the
    addition wrapped around. *)
Lemma s32_add_sub (a e : Z) : is_s32 a -> s32 (s32 (a + e) - e) = a.
Proof.
  intros Ha. unfold s32.
  replace ((a + e + 2 ^ 31) mod 2 ^ 32 - 2 ^ 31 - e + 2 ^ 31)
    with ((a + e + 2 ^ 31) mod 2 ^ 32 - e) by lia.
  rewrite Zminus_mod_idemp_l.
  replace (a + e + 2 ^ 31 - e) with (a + 2 ^ 31) by lia.
  unfold is_s32 in Ha. rewrite Z.mod_small; lia.
Qed.

Lemma s32_abs (z : Z) : Z.abs (s32 z) < 2 ^ 32.
Proof. assert (H := s32_range z). unfold is_s32 in H. lia. Qed.

(** ** The speed estimate and the PI law *)

Lemma pi_law_spec (st : State) :
  wf st -> 0 < fan_control_time_interval st < 2 ^ 31 ->
  let actual := frequency st / (fan_control_time_interval st * 2) * 60 in
  let error := s32 (targetRPM st - actual) in
  let sum := s32 (errorSum st + error) in
  let out :=
    F32.add (F32.mul (Kp st) (F32.of_Z error))
            (F32.mul (F32.mul (Ki st) (F32.of_Z sum))
                     (F32.of_Z (fan_control_time_interval st / frequency st))) in
  pi_law st =
    Some (error, set_output out (set_errorSum sum (set_actual_RPM actual st))).
Proof.
  intros (Hf & HKp & HKi & Hi & Ht & He) Hint. cbv zeta.
  unfold pi_law, udiv.
  assert (H2 : u32 (fan_control_time_interval st * 2) = fan_control_time_interval st * 2).
  { apply u32_id. unfold is_u32. lia. }
  rewrite H2.
  replace (fan_control_time_interval st * 2 =? 0) with false by (symmetry; apply Z.eqb_neq; lia).
  cbn [bind set_actual_RPM fan_control_time_interval frequency targetRPM
       fan_control_actual_RPM errorSum Kp Ki set_errorSum set_output].
  replace (frequency st =? 0) with false by (symmetry; apply Z.eqb_neq; lia).
  cbn [bind].
  assert (Hq : u32 (frequency st / (fan_control_time_interval st * 2) * 60)
               = frequency st / (fan_control_time_interval st * 2) * 60).
  { apply u32_id. unfold is_u32. rewrite Hf.
    assert (0 <= 10000 / (fan_control_time_interval st * 2) <= 10000).
    { split; [apply Z.div_pos; lia|].
      apply Z.div_le_upper_bound; nia. }
    lia. }
  rewrite Hq, s32_u32. reflexivity.
Qed.

(** The pre-clamp output is a number: the products stay far below the
    overflow threshold, so the sum is not NaN. *)
Lemma pi_output_not_nan (error sum t : Z) :
  Z.abs error < 2 ^ 32 -> Z.abs sum < 2 ^ 32 -> Z.abs t < 2 ^ 32 ->
  F32.is_nan
    (F32.add (F32.mul Kp_init (F32.of_Z error))
             (F32.mul (F32.mul Ki_init (F32.of_Z sum)) (F32.of_Z t))) = false.
Proof.
  intros He Hs Ht.
  assert (HKp : finite_upto 0 Kp_init) by (rewrite Kp_init_value; cbn; lia).
  assert (HKi : finite_upto 2 Ki_init) by (rewrite Ki_init_value; cbn; lia).
  assert (P := mul_upper _ _ 0 33 HKp (of_Z_finite error He) ltac:(lia)).
  assert (X := mul_upper _ _ 2 33 HKi (of_Z_finite sum Hs) ltac:(lia)).
  assert (I := mul_upper _ _ _ 33 X (of_Z_finite t Ht) ltac:(lia)).
  exact (add_not_nan _ _ _ _ P I).
Qed.

(** ** Saturation and actuation *)

Lemma saturate_cases (error : Z) (st : State) :
  (clamped st = true /\
   errorSum (saturate error st) = s32 (errorSum st - error) /\
   (output (saturate error st) = F32.of_Z MAX_PWM \/
    output (saturate error st) = F32.of_Z MIN_PWM)) \/
  (clamped st = false /\ saturate error st = st).
Proof.
  unfold clamped, saturate.
  destruct (F32.gtb (output st) (F32.of_Z MAX_PWM)) eqn:Eg.
  - left. cbn. auto.
  - destruct (F32.ltb (output st) (F32.of_Z MIN_PWM)) eqn:El.
    + left. cbn. auto.
    + right. auto.
Qed.

Lemma saturate_frame (error : Z) (st : State) :
  fan_control_actual_RPM (saturate error st) = fan_control_actual_RPM st /\
  fan_control_time_interval (saturate error st) = fan_control_time_interval st /\
  fan_start_flag (saturate error st) = fan_start_flag st /\
  frequency (saturate error st) = frequency st /\
  targetRPM (saturate error st) = targetRPM st /\
  Kp (saturate error st) = Kp st /\ Ki (saturate error st) = Ki st /\
  TIM2 (saturate error st) = TIM2 st /\ TIM3 (saturate error st) = TIM3 st /\
  dma_address (saturate error st) = dma_address st /\
  trace (saturate error st) = trace st.
Proof.
  unfold saturate.
  destruct (F32.gtb (output st) (F32.of_Z MAX_PWM));
    [|destruct (F32.ltb (output st) (F32.of_Z MIN_PWM))]; cbn; repeat split.
Qed.

(** Whatever [output] held before, what leaves the saturation and converts to
    a compare value is within the duty range. *)
Lemma saturate_to_u32 (error : Z) (st : State) (c : Z) :
  F32.to_u32 (output (saturate error st)) = Some c ->
  MIN_PWM <= c <= MAX_PWM /\ duty_ok (output (saturate error st)) = true.
Proof.
  unfold saturate.
  destruct (F32.gtb (output st) (F32.of_Z MAX_PWM)) eqn:Eg.
  - cbn [output set_output set_errorSum]. intros H.
    change (F32.to_u32 (F32.of_Z MAX_PWM)) with (Some MAX_PWM) in H.
    inversion H; subst. split; [unfold MIN_PWM, MAX_PWM; lia|reflexivity].
  - destruct (F32.ltb (output st) (F32.of_Z MIN_PWM)) eqn:El.
    + cbn [output set_output set_errorSum]. intros H.
      change (F32.to_u32 (F32.of_Z MIN_PWM)) with (Some MIN_PWM) in H.
      inversion H; subst. split; [unfold MIN_PWM, MAX_PWM; lia|reflexivity].
    + intros H. assert (Hn := to_u32_some_not_nan _ _ H).
      destruct (to_u32_between _ Hn Eg El) as (c' & Hc & Hr).
      rewrite Hc in H. inversion H; subst.
      split; [assumption|]. apply duty_ok_between; assumption.
Qed.

(** A number leaves the saturation as a number that converts. *)
Lemma saturate_converts (error : Z) (st : State) :
  F32.is_nan (output st) = false ->
  exists c, F32.to_u32 (output (saturate error st)) = Some c.
Proof.
  intros Hn. unfold saturate.
  destruct (F32.gtb (output st) (F32.of_Z MAX_PWM)) eqn:Eg.
  - exists MAX_PWM. reflexivity.
  - destruct (F32.ltb (output st) (F32.of_Z MIN_PWM)) eqn:El.
    + exists MIN_PWM. reflexivity.
    + destruct (to_u32_between _ Hn Eg El) as (c & Hc & _). exists c. exact Hc.
Qed.

(** The tick is defined on every well-formed state with a non-zero interval. *)
Lemma regulateFanSpeed_defined (st : State) :
  wf st -> 0 < fan_control_time_interval st < 2 ^ 31 ->
  exists error st1 c,
    pi_law st = Some (error, st1) /\
    F32.to_u32 (output (saturate error st1)) = Some c /\
    regulateFanSpeed st = Some (HAL_TIM_SET_COMPARE c (saturate error st1)).
Proof.
  intros Hwf Hint. assert (Hpi := pi_law_spec st Hwf Hint). cbv zeta in Hpi.
  destruct Hwf as (Hf & HKp & HKi & Hi & Ht & He).
  set (actual := frequency st / (fan_control_time_interval st * 2) * 60) in *.
  set (error := s32 (targetRPM st - actual)) in *.
  set (sum := s32 (errorSum st + error)) in *.
  set (st1 := set_output _ _) in Hpi.
  assert (Hn : F32.is_nan (output st1) = false).
  { subst st1. cbn [output set_output]. rewrite HKp, HKi.
    apply pi_output_not_nan; try apply s32_abs.
    rewrite Hf. assert (0 <= fan_control_time_interval st / 10000 <= fan_control_time_interval st).
    { split; [apply Z.div_pos; lia|]. apply Z.div_le_upper_bound; lia. }
    lia. }
  destruct (saturate_converts error st1 Hn) as (c & Hc).
  exists error, st1, c. split; [exact Hpi|]. split; [exact Hc|].
  unfold regulateFanSpeed. rewrite Hpi. cbn [bind fst snd].
  unfold actuate. rewrite Hc. reflexivity.
Qed.

(** * The measured speed *)

Lemma wf_interval_100 : wf interval_100.
Proof. repeat split; try reflexivity; vm_compute; congruence. Qed.

(** C6.  For an interval [i > 0] the tick stores
    [(frequency / (i * 2)) * 60] in [fan_control_actual_RPM], the quotient
    being the truncating unsigned division; with the 10 kHz counter and
    [i = 100] this is 3000. *)
Theorem measured_speed (st : State) :
  wf st -> 0 < fan_control_time_interval st < 2 ^ 31 ->
  exists st',
    regulateFanSpeed st = Some st' /\
    fan_control_actual_RPM st' =
      frequency st / (fan_control_time_interval st * 2) * 60 /\
    (fan_control_time_interval st = 100 -> fan_control_actual_RPM st' = 3000).
Proof.
  intros Hwf Hint.
  destruct (regulateFanSpeed_defined st Hwf Hint) as (error & st1 & c & Hpi & Hc & Hr).
  rewrite (pi_law_spec st Hwf Hint) in Hpi. inversion Hpi as [[He Hs]]; clear Hpi.
  eexists. split; [exact Hr|].
  assert (Ha : fan_control_actual_RPM (HAL_TIM_SET_COMPARE c (saturate error st1))
               = frequency st / (fan_control_time_interval st * 2) * 60).
  { cbn [HAL_TIM_SET_COMPARE write_TIM3 fan_control_actual_RPM].
    destruct (saturate_frame error st1) as (Hact & _). rewrite Hact, <- Hs. reflexivity. }
  split; [exact Ha|].
  intros H100. rewrite Ha, H100. destruct Hwf as (Hf & _). rewrite Hf. reflexivity.
Qed.

Lemma measured_speed_witness :
  wf interval_100 /\ 0 < fan_control_time_interval interval_100 < 2 ^ 31 /\
  exists st',
    regulateFanSpeed interval_100 = Some st' /\
    fan_control_actual_RPM st' = 3000.
Proof.
  assert (Hr : 0 < fan_control_time_interval interval_100 < 2 ^ 31)
    by (vm_compute; split; reflexivity).
  split; [exact wf_interval_100|]. split; [exact Hr|].
  destruct (measured_speed interval_100 wf_interval_100 Hr) as (st' & H & _ & H3).
  exists st'. split; [exact H|]. apply H3. reflexivity.
Defined.

(** * The setpoint *)

Lemma scale_bounds (a : Z) :
  0 <= a <= 4095 ->
  a * 4500 < 2 ^ 32 /\
  u32 (a * 4500) / 4095 = a * 4500 / 4095 /\
  0 <= a * 4500 / 4095 <= 4500.
Proof.
  intros Ha. split; [lia|]. split.
  - rewrite u32_id by (unfold is_u32; lia). reflexivity.
  - split; [apply Z.div_pos; lia|]. apply Z.div_le_upper_bound; lia.
Qed.

Lemma fan_control_set_rpm_target (st : State) :
  0 <= potis_dma_get_avg POTIS_DMA_1 st <= 4095 ->
  targetRPM (fan_control_set_rpm st)
    = potis_dma_get_avg POTIS_DMA_1 st * 4500 / 4095 /\
  fan_control_poti_val (fan_control_set_rpm st)
    = potis_dma_get_avg POTIS_DMA_1 st * 4500 / 4095.
Proof.
  intros Ha. destruct (scale_bounds _ Ha) as (_ & Hu & _).
  unfold fan_control_set_rpm.
  cbn [targetRPM set_targetRPM fan_control_poti_val set_poti_val].
  rewrite Hu. split; reflexivity.
Qed.

(** C10.  For a potentiometer average [a] in [0, 4095] the product
    [a * 4500] does not leave the [uint32_t] range, [fan_control_set_rpm]
    stores exactly [(a * 4500) / 4095] in [targetRPM], and so
    [0 <= targetRPM <= 4500] afterwards. *)
Theorem set_rpm_scaling (st : State) :
  let a := potis_dma_get_avg POTIS_DMA_1 st in
  0 <= a <= 4095 ->
  a * 4500 < 2 ^ 32 /\
  targetRPM (fan_control_set_rpm st) = a * 4500 / 4095 /\
  fan_control_poti_val (fan_control_set_rpm st) = a * 4500 / 4095 /\
  0 <= targetRPM (fan_control_set_rpm st) <= 4500.
Proof.
  intros a Ha. destruct (scale_bounds a Ha) as (Hm & _ & Hr).
  destruct (fan_control_set_rpm_target st Ha) as (Ht & Hp).
  fold a in Ht, Hp. clearbody a. rewrite Ht, Hp. auto.
Qed.

Lemma set_rpm_scaling_witness :
  0 <= potis_dma_get_avg POTIS_DMA_1 full_scale <= 4095 /\
  targetRPM (fan_control_set_rpm full_scale) = 4500.
Proof.
  assert (Ha : 0 <= potis_dma_get_avg POTIS_DMA_1 full_scale <= 4095)
    by (vm_compute; split; congruence).
  split; [exact Ha|].
  destruct (set_rpm_scaling full_scale Ha) as (_ & Ht & _).
  rewrite Ht. vm_compute. reflexivity.
Defined.

(** * The degenerate interval *)

(** Whatever the rest of the state, a zero interval makes the first
    statement of the tick divide by zero. *)
Lemma zero_interval_undefined (st : State) :
  fan_control_time_interval st = 0 ->
  pi_law st = None /\ regulateFanSpeed st = None.
Proof.
  intros H0. assert (Hpi : pi_law st = None).
  { unfold pi_law. rewrite H0. reflexivity. }
  split; [exact Hpi|]. unfold regulateFanSpeed. rewrite Hpi. reflexivity.
Qed.

(** C2 (the code departs from the specification).  With [interval = 0] the tick is
    not skipped: its first statement divides [frequency] by
    [interval * 2 = 0], which is undefined.  The same happens when the edge
    handler samples a counter that has not advanced. *)
Theorem zero_interval_divides_by_zero :
  fan_control_time_interval interval_0 = 0 /\
  udiv (frequency interval_0) (u32 (fan_control_time_interval interval_0 * 2))
    = None /\
  pi_law interval_0 = None /\
  regulateFanSpeed interval_0 = None /\
  run [EvEdge GPIO_PIN_1; EvEdge GPIO_PIN_1] initial = None.
Proof. repeat (split; [vm_compute; reflexivity|]). vm_compute. reflexivity. Qed.

(** * The sampling period *)

(** C1 (the code departs from the specification).  With [interval = 100] at 10 kHz
    the floating-point quotient is 0.01, and for an error of 200 the
    controller output of the specification is 200.2.  The code divides the two
    integers first: its sampling period is 0 and its pre-clamp output is
    exactly 196, which is below the saturation limit. *)
Theorem integer_sampling_period_at_100 :
  let st1 := after_pi_law target_3200 in
  pi_law target_3200 = Some (200, st1) /\
  spec_samplingPeriod st1 = F32.literal 1 100 /\
  spec_output 200 st1 = F32.literal 2002 10 /\
  fan_control_time_interval st1 / frequency st1 = 0 /\
  output st1 = F32.of_Z 196 /\
  F32.compare (output st1) (spec_output 200 st1) = Some Lt /\
  F32.gtb (spec_output 200 st1) (F32.of_Z MAX_PWM) = true /\
  clamped st1 = false.
Proof. repeat (split; [vm_compute; reflexivity|]). vm_compute. reflexivity. Qed.

(** * The single-tick scenario *)

(** The inputs of the scenario do not fit together: with a target of
    3000 RPM and an interval of 100 ticks the measured speed is 3000, not
    2800, so the error is 0, not 200. *)
Lemma scenario_2_as_stated_fails :
  ~ (exists st1 st',
       pi_law target_3000 = Some (200, st1) /\
       regulateFanSpeed target_3000 = Some st' /\
       fan_control_actual_RPM st1 = 2800 /\
       errorSum st1 = 200 /\
       output st1 = F32.literal 2002 10 /\
       CCR2 (TIM3 st') = MAX_PWM /\
       errorSum st' = 0).
Proof.
  intros (st1 & st' & Hpi & _).
  assert (H : option_map fst (pi_law target_3000) = Some 0)
    by (vm_compute; reflexivity).
  rewrite Hpi in H. discriminate H.
Qed.

(** With those inputs taken literally (a target of 3000 RPM, an interval of
    100 ticks at 10 kHz, [errorSum = 0]) the measured speed is 3000 and the
    error 0; the accumulation leaves [errorSum] at 0; the pre-clamp output
    is 0; the emitted output is clamped to [MIN_PWM = 15]; and [errorSum]
    is 0 after the tick. *)
Theorem scenario_2_at_target_3000 :
  let st1 := after_pi_law target_3000 in
  let st' := after_tick target_3000 in
  targetRPM target_3000 = 3000 /\
  fan_control_time_interval target_3000 = 100 /\
  frequency target_3000 = 10000 /\
  errorSum target_3000 = 0 /\
  Kp target_3000 = F32.literal 98 100 /\
  Ki target_3000 = F32.literal 21 10 /\
  pi_law target_3000 = Some (0, st1) /\
  regulateFanSpeed target_3000 = Some st' /\
  fan_control_actual_RPM st1 = 3000 /\
  errorSum st1 = 0 /\
  output st1 = F32.of_Z 0 /\
  clamped st1 = true /\
  output st' = F32.of_Z MIN_PWM /\
  CCR2 (TIM3 st') = MIN_PWM /\
  errorSum st' = 0.
Proof. repeat (split; [vm_compute; reflexivity|]). vm_compute. reflexivity. Qed.

(** C3 (the code departs from the specification).  The scenario with its
    error of 200 RPM kept: an interval of 100 ticks at 10 kHz measures
    3000 RPM, so the target is 3200 RPM, with [errorSum = 0] before the
    tick.  The error is 200 and the accumulation sets [errorSum] to 200, as
    the scenario says, and the output of the specification is 200.2, above
    [MAX_PWM].  The code, whose sampling period is the integer quotient 0,
    computes the pre-clamp output 196: it does not saturate, emits the duty
    196 instead of 199, and leaves [errorSum] at 200 instead of reverting
    it to 0. *)
Theorem scenario_2_not_saturated :
  let st1 := after_pi_law target_3200 in
  let st' := after_tick target_3200 in
  targetRPM target_3200 = 3200 /\
  fan_control_time_interval target_3200 = 100 /\
  frequency target_3200 = 10000 /\
  errorSum target_3200 = 0 /\
  Kp target_3200 = F32.literal 98 100 /\
  Ki target_3200 = F32.literal 21 10 /\
  pi_law target_3200 = Some (200, st1) /\
  regulateFanSpeed target_3200 = Some st' /\
  fan_control_actual_RPM st1 = 3000 /\
  errorSum st1 = 200 /\
  spec_output 200 st1 = F32.literal 2002 10 /\
  F32.gtb (spec_output 200 st1) (F32.of_Z MAX_PWM) = true /\
  output st1 = F32.of_Z 196 /\
  clamped st1 = false /\
  output st' = F32.of_Z 196 /\
  CCR2 (TIM3 st') = 196 /\
  CCR2 (TIM3 st') <> MAX_PWM /\
  errorSum st' = 200.
Proof.
  repeat (split; [vm_compute; reflexivity|]).
  split; [vm_compute; discriminate|]. vm_compute. reflexivity.
Qed.

(** * The integral term *)

Lemma mul_zero_r (x : F32.float) (K : Z) :
  finite_upto K x ->
  F32.mul x (S754_zero false) = S754_zero (sign_of x).
Proof.
  destruct x as [s|s| |s m e]; cbn [finite_upto]; intros H; try contradiction;
    unfold F32.mul; cbn [SFmul sign_of]; rewrite xorb_false_r; reflexivity.
Qed.

Lemma Kp_mul_plus_zero (error : Z) (s : bool) :
  Z.abs error < 2 ^ 32 ->
  F32.add (F32.mul Kp_init (F32.of_Z error)) (S754_zero s)
  = F32.mul Kp_init (F32.of_Z error).
Proof.
  intros He. destruct (Z.eq_dec error 0) as [->|Hz].
  - destruct s; reflexivity.
  - assert (HKp : normal_in 0 0 Kp_init) by (rewrite Kp_init_value; cbn; lia).
    destruct (of_Z_normal error Hz He) as [N _].
    destruct (mul_normal _ _ _ _ _ _ HKp N ltac:(lia) ltac:(lia)) as [P _].
    exact (add_zero_r _ _ _ s P).
Qed.

(** C8.  The sampling period is the [float] of the unsigned integer quotient
    [interval / frequency]; for [0 < interval < frequency] that quotient is
    0, the sampling period is [+0.0], and the pre-clamp output equals
    [Kp * error] exactly: the integral term contributes nothing. *)
Theorem sampling_period_truncates (st : State) :
  wf st -> 0 < fan_control_time_interval st < frequency st ->
  exists error st1,
    pi_law st = Some (error, st1) /\
    output st1 =
      F32.add (F32.mul (Kp st) (F32.of_Z error))
              (F32.mul (F32.mul (Ki st) (F32.of_Z (errorSum st1)))
                       (F32.of_Z (fan_control_time_interval st / frequency st))) /\
    fan_control_time_interval st / frequency st = 0 /\
    F32.of_Z (fan_control_time_interval st / frequency st) = S754_zero false /\
    output st1 = F32.mul (Kp st) (F32.of_Z error).
Proof.
  intros Hwf Hint.
  assert (Hf : frequency st = 10000) by apply Hwf.
  assert (Hint' : 0 < fan_control_time_interval st < 2 ^ 31) by lia.
  assert (Hpi := pi_law_spec st Hwf Hint'). cbv zeta in Hpi.
  destruct Hwf as (_ & HKp & HKi & Hi & Ht & He).
  set (actual := frequency st / (fan_control_time_interval st * 2) * 60) in *.
  set (error := s32 (targetRPM st - actual)) in *.
  set (sum := s32 (errorSum st + error)) in *.
  assert (Hq : fan_control_time_interval st / frequency st = 0)
    by (apply Z.div_small; lia).
  eexists. eexists. split; [exact Hpi|].
  cbn [output set_output errorSum set_errorSum].
  split; [reflexivity|]. split; [exact Hq|]. rewrite Hq, of_Z_0.
  split; [reflexivity|].
  rewrite HKp, HKi.
  assert (HKi' : finite_upto 2 Ki_init) by (rewrite Ki_init_value; cbn; lia).
  assert (X := mul_upper _ _ 2 33 HKi' (of_Z_finite sum (s32_abs _)) ltac:(lia)).
  rewrite (mul_zero_r _ _ X).
  apply Kp_mul_plus_zero. apply s32_abs.
Qed.

Lemma sampling_period_truncates_witness :
  wf interval_100 /\
  0 < fan_control_time_interval interval_100 < frequency interval_100 /\
  exists error st1,
    pi_law interval_100 = Some (error, st1) /\
    output st1 = F32.mul (Kp interval_100) (F32.of_Z error).
Proof.
  assert (Hr : 0 < fan_control_time_interval interval_100 < frequency interval_100)
    by (vm_compute; split; reflexivity).
  split; [exact wf_interval_100|]. split; [exact Hr|].
  destruct (sampling_period_truncates interval_100 wf_interval_100 Hr)
    as (error & st1 & H1 & _ & _ & _ & H5).
  exists error, st1. split; assumption.
Defined.

(** * Anti-windup *)

(** Only the regulation tick, run by the edge that closes a measurement,
    assigns [errorSum]. *)
Lemma errorSum_frame (ev : Event) (st st' : State) :
  step ev st = Some st' -> errorSum st' <> errorSum st ->
  ev = EvEdge GPIO_PIN_1 /\ fan_start_flag st <> 0.
Proof.
  destruct ev as [pin| |i v|]; cbn [step]; intros H Hne.
  - unfold HAL_GPIO_EXTI_Callback in H.
    destruct (pin =? GPIO_PIN_1) eqn:Ep.
    + apply Z.eqb_eq in Ep. subst pin.
      destruct (fan_start_flag st =? 0) eqn:Ef.
      * inversion H; subst. cbn in Hne. congruence.
      * apply Z.eqb_neq in Ef. auto.
    + inversion H; subst. congruence.
  - inversion H; subst. unfold tick_TIM2 in Hne.
    destruct (CEN (TIM2 st)); cbn in Hne; congruence.
  - inversion H; subst. cbn in Hne. congruence.
  - inversion H; subst. cbn in Hne. congruence.
Qed.

(** C4.  In a tick with [interval > 0]: when the output is clamped,
    [errorSum] after the tick equals [errorSum] before it; when it is not,
    [errorSum] after the tick is [errorSum + error] (the [int32_t] sum).  No
    other operation of the system changes [errorSum]. *)
Theorem anti_windup (st : State) :
  wf st -> 0 < fan_control_time_interval st < 2 ^ 31 ->
  exists error st1 st',
    pi_law st = Some (error, st1) /\
    regulateFanSpeed st = Some st' /\
    error = s32 (targetRPM st - fan_control_actual_RPM st') /\
    errorSum st1 = s32 (errorSum st + error) /\
    (clamped st1 = true -> errorSum st' = errorSum st) /\
    (clamped st1 = false ->
       errorSum st' = s32 (errorSum st + error) /\
       (is_s32 (errorSum st + error) -> errorSum st' = errorSum st + error)) /\
    (forall ev st2,
       step ev st = Some st2 -> errorSum st2 <> errorSum st ->
       ev = EvEdge GPIO_PIN_1 /\ fan_start_flag st <> 0).
Proof.
  intros Hwf Hint.
  destruct (regulateFanSpeed_defined st Hwf Hint) as (error & st1 & c & Hpi & Hc & Hr).
  assert (Hsum : errorSum st1 = s32 (errorSum st + error)).
  { rewrite (pi_law_spec st Hwf Hint) in Hpi. inversion Hpi; subst. reflexivity. }
  assert (Herr : error = s32 (targetRPM st - fan_control_actual_RPM st1)).
  { rewrite (pi_law_spec st Hwf Hint) in Hpi. inversion Hpi; subst. reflexivity. }
  exists error, st1, (HAL_TIM_SET_COMPARE c (saturate error st1)).
  split; [exact Hpi|]. split; [exact Hr|].
  cbn [HAL_TIM_SET_COMPARE write_TIM3 errorSum fan_control_actual_RPM].
  split; [destruct (saturate_frame error st1) as (Ha & _); rewrite Ha; exact Herr|].
  split; [exact Hsum|].
  destruct (saturate_cases error st1) as [(Hcl & Hes & _)|(Hcl & Hsat)].
  - split; [|split; [congruence|]].
    + intros _. rewrite Hes, Hsum. apply s32_add_sub. apply Hwf.
    + intros ev st2. apply errorSum_frame.
  - split; [congruence|]. split.
    + intros _. rewrite Hsat. split; [exact Hsum|].
      intros Hin. rewrite Hsum. apply s32_id. exact Hin.
    + intros ev st2. apply errorSum_frame.
Qed.

Lemma wf_target_3200 : wf target_3200.
Proof. repeat split; try reflexivity; vm_compute; congruence. Qed.

Lemma anti_windup_witness :
  wf target_3200 /\ 0 < fan_control_time_interval target_3200 < 2 ^ 31 /\
  exists error st1 st',
    pi_law target_3200 = Some (error, st1) /\
    regulateFanSpeed target_3200 = Some st' /\
    (clamped st1 = false -> errorSum st' = s32 (errorSum target_3200 + error)).
Proof.
  assert (Hr : 0 < fan_control_time_interval target_3200 < 2 ^ 31)
    by (vm_compute; split; reflexivity).
  split; [exact wf_target_3200|]. split; [exact Hr|].
  destruct (anti_windup target_3200 wf_target_3200 Hr)
    as (error & st1 & st' & H1 & H2 & _ & _ & _ & H4 & _).
  exists error, st1, st'. split; [exact H1|]. split; [exact H2|].
  intros Hc. apply (H4 Hc).
Defined.

(** * What a tick changes *)

Lemma regulateFanSpeed_effect (st st' : State) :
  regulateFanSpeed st = Some st' ->
  fan_control_time_interval st' = fan_control_time_interval st /\
  fan_start_flag st' = fan_start_flag st /\
  frequency st' = frequency st /\
  targetRPM st' = targetRPM st /\
  Kp st' = Kp st /\ Ki st' = Ki st /\
  TIM2 st' = TIM2 st /\
  dma_address st' = dma_address st /\
  CEN (TIM3 st') = CEN (TIM3 st) /\
  is_s32 (errorSum st') /\
  trace st' = trace st ++ [TIM3_SetCompare (CCR2 (TIM3 st'))] /\
  MIN_PWM <= CCR2 (TIM3 st') <= MAX_PWM /\
  duty_ok (output st') = true.
Proof.
  unfold regulateFanSpeed, pi_law.
  destruct (udiv (frequency st) (u32 (fan_control_time_interval st * 2))) as [q|];
    [|discriminate].
  cbn [bind set_actual_RPM fan_control_time_interval frequency targetRPM
       fan_control_actual_RPM errorSum Kp Ki set_errorSum set_output].
  destruct (udiv (fan_control_time_interval st) (frequency st)) as [t|];
    [|discriminate].
  cbn [bind fst snd]. unfold actuate.
  set (error := s32 (u32 (targetRPM st - u32 (q * 60)))).
  set (st1 := set_output _ _).
  destruct (F32.to_u32 (output (saturate error st1))) as [c|] eqn:Ec; [|discriminate].
  cbn [bind]. intros H. inversion H; subst st'; clear H.
  destruct (saturate_to_u32 error st1 c Ec) as [Hr Hd].
  destruct (saturate_frame error st1)
    as (Ha & Hi & Hfl & Hf & Ht & HKp & HKi & HT2 & HT3 & Hdma & Htr).
  cbn [HAL_TIM_SET_COMPARE write_TIM3 fan_control_time_interval fan_start_flag
       frequency targetRPM Kp Ki TIM2 TIM3 dma_address errorSum trace output
       CEN CCR2].
  rewrite Hi, Hfl, Hf, Ht, HKp, HKi, HT2, HT3, Hdma, Htr.
  repeat (split; [reflexivity|]).
  split; [|split; [reflexivity|split; assumption]].
  destruct (saturate_cases error st1) as [(_ & Hes & _)|(_ & Hsat)].
  - rewrite Hes. apply s32_range.
  - rewrite Hsat. subst st1. cbn [errorSum set_output set_errorSum]. apply s32_range.
Qed.

(** * Reachable states *)

Ltac conj := repeat match goal with |- _ /\ _ => split end.

Lemma nth_12bit (buf : list Z) (i : nat) :
  Forall (fun v => 0 <= v <= 4095) buf -> 0 <= nth i buf 0 <= 4095.
Proof.
  intros H. revert i. induction H as [|x l Hx Hl IH]; intros [|i]; cbn [nth]; try lia.
  apply IH.
Qed.

Lemma store_12bit (buf : list Z) (i : nat) (v : Z) :
  0 <= v <= 4095 ->
  Forall (fun v => 0 <= v <= 4095) buf ->
  Forall (fun v => 0 <= v <= 4095) (store i v buf).
Proof.
  intros Hv H. revert i. induction H as [|x l Hx Hl IH]; intros [|i]; cbn [store];
    constructor; auto.
Qed.

Lemma land_12bit (v : Z) : 0 <= Z.land v 4095 <= 4095.
Proof.
  assert (E : Z.land v 4095 = v mod 4096) by (apply (Z.land_ones v 12); lia).
  rewrite E. assert (H := Z.mod_pos_bound v 4096 ltac:(lia)). lia.
Qed.

Lemma sum_12bit (buf : list Z) (off : nat) (l : list nat) :
  Forall (fun v => 0 <= v <= 4095) buf ->
  forall acc,
    0 <= acc -> acc + 4095 * Z.of_nat (length l) < 2 ^ 32 ->
    0 <= fold_left (fun tmp k => u32 (tmp + nth (2 * k + off) buf 0)) l acc
      <= acc + 4095 * Z.of_nat (length l).
Proof.
  intros Hb. induction l as [|k l IH]; intros acc H0 Hlt; cbn [fold_left length].
  - lia.
  - assert (Hn := nth_12bit buf (2 * k + off) Hb).
    cbn [length] in Hlt. rewrite Nat2Z.inj_succ in *.
    rewrite u32_id by (unfold is_u32; lia).
    specialize (IH (acc + nth (2 * k + off) buf 0) ltac:(lia) ltac:(lia)). lia.
Qed.

Lemma sum_channel_12bit (buf : list Z) (off : nat) :
  Forall (fun v => 0 <= v <= 4095) buf ->
  0 <= sum_channel off buf <= 409500.
Proof.
  intros Hb. unfold sum_channel.
  assert (H := sum_12bit buf off (seq 0 100) Hb 0 ltac:(lia)).
  rewrite length_seq in H. apply H. reflexivity.
Qed.

(** The average of 12-bit samples is a 12-bit value. *)
Lemma potis_dma_get_avg_12bit (st : State) :
  Forall (fun v => 0 <= v <= 4095) (dma_address st) ->
  0 <= potis_dma_get_avg POTIS_DMA_1 st <= 4095.
Proof.
  intros Hb. unfold potis_dma_get_avg.
  change (POTIS_DMA_1 =? POTIS_DMA_1) with true.
  change (POTIS_DMA_1 =? POTIS_DMA_2) with false. cbv iota.
  assert (H := sum_channel_12bit (dma_address st) 0 Hb).
  rewrite Z.add_0_l, u32_id by (unfold is_u32; lia).
  split; [apply Z.div_pos; lia|]. apply Z.div_le_upper_bound; lia.
Qed.

Lemma inv_initial : inv initial.
Proof.
  unfold inv, wf, is_u32, is_s32. conj; try reflexivity; try (vm_compute; congruence).
  apply Forall_forall. intros v Hv. apply repeat_spec in Hv. subst v. lia.
Qed.

Lemma inv_set_rpm (st : State) : inv st -> inv (fan_control_set_rpm st).
Proof.
  intros (Hwf & HA & HC & HI & HT & HD).
  assert (Ha := potis_dma_get_avg_12bit st HD).
  destruct (fan_control_set_rpm_target st Ha) as (Ht & _).
  destruct (scale_bounds _ Ha) as (_ & _ & Hr).
  destruct Hwf as (Hf & HKp & HKi & Hi & _ & He).
  unfold inv, wf. rewrite Ht in *.
  unfold fan_control_set_rpm.
  cbn [frequency Kp Ki fan_control_time_interval targetRPM errorSum TIM2
       dma_address set_targetRPM set_poti_val fan_control_poti_val].
  unfold is_u32. conj; try assumption; try apply Hi; try apply He; lia.
Qed.

Lemma inv_tick_TIM2 (st : State) : inv st -> inv (tick_TIM2 st).
Proof.
  intros Hinv. unfold tick_TIM2.
  destruct (CEN (TIM2 st)); [|exact Hinv].
  destruct Hinv as (Hwf & HA & HC & HI & HT & HD). unfold inv, wf.
  cbn [put_TIM2 frequency Kp Ki fan_control_time_interval targetRPM errorSum
       TIM2 dma_address ARR CNT].
  destruct (CNT (TIM2 st) <? ARR (TIM2 st)) eqn:E;
    [apply Z.ltb_lt in E|]; conj; try assumption; try apply Hwf; lia.
Qed.

Lemma inv_dma_transfer (st : State) (i : nat) (v : Z) :
  inv st -> inv (dma_transfer i v st).
Proof.
  intros (Hwf & HA & HC & HI & HT & HD). unfold dma_transfer, inv, wf.
  cbn [set_dma_address frequency Kp Ki fan_control_time_interval targetRPM
       errorSum TIM2 dma_address].
  conj; try assumption; try apply Hwf; try lia.
  apply store_12bit; [apply land_12bit|assumption].
Qed.

(** The state on which the closing edge runs the tick. *)
Lemma inv_sampled (st : State) :
  inv st ->
  inv (set_time_interval (HAL_TIM_GET_COUNTER (HAL_TIM_Base_Stop st))
         (HAL_TIM_Base_Stop st)).
Proof.
  intros (Hwf & HA & HC & HI & HT & HD). unfold inv, wf, is_u32.
  cbn [HAL_TIM_GET_COUNTER HAL_TIM_Base_Stop write_TIM2 set_time_interval
       frequency Kp Ki fan_control_time_interval targetRPM errorSum TIM2
       dma_address ARR CNT].
  conj; try assumption; try apply Hwf; lia.
Qed.

Lemma inv_regulateFanSpeed (st st' : State) :
  inv st -> regulateFanSpeed st = Some st' -> inv st'.
Proof.
  intros (Hwf & HA & HC & HI & HT & HD) H.
  destruct (regulateFanSpeed_effect st st' H)
    as (Hi & _ & Hf & Ht & HKp & HKi & HT2 & Hdma & _ & Hes & _).
  unfold inv, wf. rewrite Hi, Hf, Ht, HKp, HKi, HT2, Hdma.
  conj; try assumption; try apply Hwf; lia.
Qed.

Lemma inv_callback (pin : Z) (st st' : State) :
  inv st -> HAL_GPIO_EXTI_Callback pin st = Some st' -> inv st'.
Proof.
  intros Hinv. unfold HAL_GPIO_EXTI_Callback.
  destruct (pin =? GPIO_PIN_1); [|intros H; inversion H; subst; assumption].
  destruct (fan_start_flag st =? 0).
  - intros H. inversion H; subst. destruct Hinv as (Hwf & HA & HC & HI & HT & HD).
    unfold inv, wf.
    cbn [set_start_flag HAL_TIM_Base_Start write_TIM2 frequency Kp Ki
         fan_control_time_interval targetRPM errorSum TIM2 dma_address ARR CNT].
    conj; try assumption; try apply Hwf; lia.
  - destruct (regulateFanSpeed _) as [st1|] eqn:Er; [|discriminate].
    cbn [bind]. intros H. inversion H; subst.
    assert (H1 := inv_regulateFanSpeed _ _ (inv_sampled st Hinv) Er).
    destruct H1 as (Hwf & HA & HC & HI & HT & HD). unfold inv, wf.
    cbn [set_start_flag HAL_TIM_SET_COUNTER write_TIM2 frequency Kp Ki
         fan_control_time_interval targetRPM errorSum TIM2 dma_address ARR CNT].
    conj; try assumption; try apply Hwf; lia.
Qed.

Lemma inv_step (ev : Event) (st st' : State) :
  inv st -> step ev st = Some st' -> inv st'.
Proof.
  intros Hinv. destruct ev as [pin| |i v|]; cbn [step].
  - apply inv_callback. assumption.
  - intros H. inversion H. apply inv_tick_TIM2. assumption.
  - intros H. inversion H. apply inv_dma_transfer. assumption.
  - intros H. inversion H. apply inv_set_rpm. assumption.
Qed.

Lemma inv_run (evs : list Event) :
  forall st st', inv st -> run evs st = Some st' -> inv st'.
Proof.
  induction evs as [|ev evs IH]; intros st st' Hinv; cbn [run].
  - intros H. inversion H; subst. assumption.
  - destruct (step ev st) as [st1|] eqn:Es; [|discriminate]. cbn [bind].
    apply IH. apply (inv_step ev st); assumption.
Qed.

(** * The output bound *)

Lemma existsb_snoc (l : list HwOp) (op : HwOp) :
  existsb is_compare (l ++ [op]) = existsb is_compare l || is_compare op.
Proof. rewrite existsb_app. cbn [existsb]. rewrite orb_false_r. reflexivity. Qed.

Lemma Forall_snoc (l : list HwOp) (op : HwOp) :
  Forall compare_in_range l -> compare_in_range op ->
  Forall compare_in_range (l ++ [op]).
Proof. intros Hl Hop. apply Forall_app. split; [assumption|]. constructor; auto. Qed.

Lemma duty_inv_initial : duty_inv initial.
Proof.
  split.
  - repeat constructor.
  - vm_compute. discriminate.
Qed.

Lemma duty_inv_callback (pin : Z) (st st' : State) :
  duty_inv st -> HAL_GPIO_EXTI_Callback pin st = Some st' -> duty_inv st'.
Proof.
  intros [Hall Hlast]. unfold HAL_GPIO_EXTI_Callback.
  destruct (pin =? GPIO_PIN_1); [|intros H; inversion H; subst; split; assumption].
  destruct (fan_start_flag st =? 0).
  - intros H. inversion H; subst. unfold duty_inv.
    cbn [set_start_flag HAL_TIM_Base_Start write_TIM2 trace output TIM3].
    rewrite existsb_snoc, orb_false_r.
    split; [apply Forall_snoc; [assumption|exact I]|assumption].
  - destruct (regulateFanSpeed _) as [st1|] eqn:Er; [|discriminate].
    cbn [bind]. intros H. inversion H; subst.
    destruct (regulateFanSpeed_effect _ _ Er)
      as (_ & _ & _ & _ & _ & _ & _ & _ & _ & _ & Htr & Hr & Hd).
    cbn [set_time_interval HAL_TIM_GET_COUNTER HAL_TIM_Base_Stop write_TIM2 trace]
      in Htr.
    unfold duty_inv.
    cbn [set_start_flag HAL_TIM_SET_COUNTER write_TIM2 trace output TIM3].
    rewrite Htr. split.
    + repeat apply Forall_snoc; try assumption; exact I.
    + intros _. split; assumption.
Qed.

Lemma duty_inv_step (ev : Event) (st st' : State) :
  duty_inv st -> step ev st = Some st' -> duty_inv st'.
Proof.
  intros Hd. destruct ev as [pin| |i v|]; cbn [step].
  - apply duty_inv_callback. assumption.
  - intros H. inversion H; subst. unfold tick_TIM2.
    destruct (CEN (TIM2 st)); exact Hd.
  - intros H. inversion H; subst. exact Hd.
  - intros H. inversion H; subst. exact Hd.
Qed.

Lemma duty_inv_run (evs : list Event) :
  forall st st', duty_inv st -> run evs st = Some st' -> duty_inv st'.
Proof.
  induction evs as [|ev evs IH]; intros st st' Hd; cbn [run].
  - intros H. inversion H; subst. assumption.
  - destruct (step ev st) as [st1|] eqn:Es; [|discriminate]. cbn [bind].
    apply IH. apply (duty_inv_step ev st); assumption.
Qed.

(** C5.  Along every run of the system from its initialisation, every
    compare value the regulator has written to the PWM channel lies in
    [MIN_PWM, MAX_PWM] = [15, 199]; and whenever a tick completes, the
    value of [output] it leaves and the compare value it writes lie in that
    range. *)
Theorem output_bounded (evs : list Event) (st : State) :
  run evs initial = Some st ->
  (forall v, In (TIM3_SetCompare v) (trace st) -> 15 <= v <= 199) /\
  (existsb is_compare (trace st) = true ->
   duty_ok (output st) = true /\ 15 <= CCR2 (TIM3 st) <= 199) /\
  (forall st',
     regulateFanSpeed st = Some st' ->
     duty_ok (output st') = true /\
     15 <= CCR2 (TIM3 st') <= 199 /\
     trace st' = trace st ++ [TIM3_SetCompare (CCR2 (TIM3 st'))]).
Proof.
  intros Hrun.
  destruct (duty_inv_run evs initial st duty_inv_initial Hrun) as [Hall Hlast].
  split; [|split].
  - intros v Hv. rewrite Forall_forall in Hall. exact (Hall _ Hv).
  - exact Hlast.
  - intros st' Ht.
    destruct (regulateFanSpeed_effect _ _ Ht)
      as (_ & _ & _ & _ & _ & _ & _ & _ & _ & _ & Htr & Hr & Hd).
    split; [exact Hd|]. split; [exact Hr|exact Htr].
Qed.

Lemma output_bounded_witness :
  run half_revolution initial = Some (after_run half_revolution) /\
  In (TIM3_SetCompare 15) (trace (after_run half_revolution)) /\
  15 <= 15 <= 199.
Proof.
  assert (Hrun : run half_revolution initial = Some (after_run half_revolution))
    by (vm_compute; reflexivity).
  assert (Hin : In (TIM3_SetCompare 15) (trace (after_run half_revolution)))
    by (vm_compute; tauto).
  split; [exact Hrun|]. split; [exact Hin|].
  destruct (output_bounded half_revolution _ Hrun) as (Hall & _).
  exact (Hall 15 Hin).
Defined.

(** * The capture state machine *)

Lemma capture_inv_initial : capture_inv 0 initial.
Proof.
  split; [exact inv_initial|]. conj; reflexivity.
Qed.

(** The edge that opens a measurement. *)
Lemma callback_idle (st : State) :
  fan_start_flag st = 0 ->
  HAL_GPIO_EXTI_Callback GPIO_PIN_1 st
  = Some (set_start_flag 1 (HAL_TIM_Base_Start st)).
Proof.
  intros Hf. unfold HAL_GPIO_EXTI_Callback.
  rewrite Z.eqb_refl, Hf. reflexivity.
Qed.

(** The edge that closes a measurement, the counter having advanced. *)
Lemma callback_measuring (st : State) :
  inv st -> fan_start_flag st <> 0 -> CNT (TIM2 st) <> 0 ->
  exists st1,
    regulateFanSpeed (set_time_interval (CNT (TIM2 st)) (HAL_TIM_Base_Stop st))
      = Some st1 /\
    fan_control_time_interval st1 = CNT (TIM2 st) /\
    HAL_GPIO_EXTI_Callback GPIO_PIN_1 st
      = Some (set_start_flag 0 (HAL_TIM_SET_COUNTER 0 st1)).
Proof.
  intros Hinv Hf Hc.
  assert (Hs := inv_sampled st Hinv).
  cbn [HAL_TIM_GET_COUNTER HAL_TIM_Base_Stop write_TIM2 TIM2 CNT] in Hs.
  set (sm := set_time_interval (CNT (TIM2 st)) (HAL_TIM_Base_Stop st)) in *.
  assert (Hi : 0 < fan_control_time_interval sm < 2 ^ 31).
  { subst sm. cbn [fan_control_time_interval set_time_interval].
    destruct Hinv as (_ & _ & HC & _). lia. }
  destruct (regulateFanSpeed_defined sm (proj1 Hs) Hi) as (error & s1 & c & _ & _ & Hr).
  eexists. split; [exact Hr|]. split.
  - destruct (regulateFanSpeed_effect _ _ Hr) as (Hint & _). rewrite Hint. reflexivity.
  - unfold HAL_GPIO_EXTI_Callback. rewrite Z.eqb_refl.
    replace (fan_start_flag st =? 0) with false by (symmetry; apply Z.eqb_neq; assumption).
    cbn [HAL_TIM_GET_COUNTER HAL_TIM_Base_Stop write_TIM2 TIM2 CNT].
    fold sm. rewrite Hr. reflexivity.
Qed.

Lemma capture_inv_step (ev : Event) (n : nat) (st st' : State) :
  capture_inv n st -> step ev st = Some st' ->
  capture_inv (n + count_edges [ev]) st'.
Proof.
  intros Hc Hstep.
  assert (Hinv' : inv st') by (apply (inv_step ev st); [apply Hc|assumption]).
  destruct Hc as (Hinv & Hflag & Hcen & Hcnt & Htr).
  destruct ev as [pin| |i v|]; cbn [step count_edges] in *.
  - unfold HAL_GPIO_EXTI_Callback in Hstep.
    destruct (pin =? GPIO_PIN_1) eqn:Ep.
    + replace (n + 1)%nat with (S n) by lia.
      destruct (Nat.even n) eqn:En.
      * rewrite Hflag in Hstep. cbn [Z.eqb] in Hstep. inversion Hstep; subst st'.
        split; [assumption|].
        cbn [set_start_flag HAL_TIM_Base_Start write_TIM2 fan_start_flag TIM2 CEN
             CNT trace edge_ops].
        rewrite Nat.even_succ, Nat.odd_succ, <- Nat.negb_even, En. cbn [negb].
        conj; try reflexivity; try discriminate.
        rewrite map_app, Htr, <- app_assoc. reflexivity.
      * rewrite Hflag in Hstep. cbn [Z.eqb] in Hstep.
        destruct (regulateFanSpeed _) as [s1|] eqn:Er; [|discriminate].
        cbn [bind] in Hstep. inversion Hstep; subst st'.
        destruct (regulateFanSpeed_effect _ _ Er)
          as (_ & _ & _ & _ & _ & _ & HT2 & _ & _ & _ & Htr1 & _).
        cbn [set_time_interval HAL_TIM_GET_COUNTER HAL_TIM_Base_Stop write_TIM2
             trace TIM2] in Htr1, HT2.
        split; [assumption|].
        cbn [set_start_flag HAL_TIM_SET_COUNTER write_TIM2 fan_start_flag TIM2 CEN
             CNT trace edge_ops].
        rewrite Nat.even_succ, Nat.odd_succ, <- Nat.negb_even, En, HT2. cbn [negb CEN].
        conj; try reflexivity.
        rewrite Htr1, !map_app, Htr, <- !app_assoc. reflexivity.
    + inversion Hstep; subst st'. rewrite Nat.add_0_r. unfold capture_inv. conj; assumption.
  - inversion Hstep; subst st'. rewrite Nat.add_0_r.
    split; [assumption|]. unfold tick_TIM2 in *. revert Hcen.
    destruct (CEN (TIM2 st)) eqn:Ec; intros Hcen;
      [|conj; try assumption; congruence].
    cbn [put_TIM2 fan_start_flag TIM2 CEN CNT trace].
    conj; try assumption.
    intros En. rewrite <- Nat.negb_even, En in Hcen. discriminate.
  - inversion Hstep; subst st'. rewrite Nat.add_0_r. unfold capture_inv. conj; assumption.
  - inversion Hstep; subst st'. rewrite Nat.add_0_r. unfold capture_inv. conj; assumption.
Qed.

Lemma capture_inv_run (evs : list Event) :
  forall n st st',
    capture_inv n st -> run evs st = Some st' ->
    capture_inv (n + count_edges evs) st'.
Proof.
  induction evs as [|ev evs IH]; intros n st st' Hc; cbn [run].
  - intros H. inversion H; subst. cbn [count_edges]. rewrite Nat.add_0_r. assumption.
  - destruct (step ev st) as [s1|] eqn:Es; [|discriminate]. cbn [bind]. intros Hr.
    assert (H1 := capture_inv_step ev n st s1 Hc Es).
    assert (H2 := IH _ _ _ H1 Hr).
    replace (n + count_edges (ev :: evs))%nat
      with (n + count_edges [ev] + count_edges evs)%nat; [assumption|].
    rewrite <- Nat.add_assoc. f_equal.
    destruct ev as [pin| | |]; cbn [count_edges]; try reflexivity.
    destruct (pin =? GPIO_PIN_1); reflexivity.
Qed.

Lemma count_edges_cons (ev : Event) (evs : list Event) :
  count_edges (ev :: evs) = (count_edges [ev] + count_edges evs)%nat.
Proof.
  destruct ev as [pin| | |]; cbn [count_edges]; try reflexivity.
  destruct (pin =? GPIO_PIN_1); reflexivity.
Qed.


Lemma run_defined_only (evs : list Event) :
  forall n st st',
    capture_inv n st -> run evs st = Some st' ->
    intervals_nonzero evs (Nat.odd n) (CNT (TIM2 st)) = true.
Proof.
  induction evs as [|ev evs IH]; intros n st st' Hc; cbn [run]; [reflexivity|].
  destruct (step ev st) as [s1|] eqn:Es; [|discriminate]. cbn [bind]. intros Hr.
  assert (H1 := capture_inv_step ev n st s1 Hc Es).
  assert (H2 := IH _ _ _ H1 Hr).
  destruct Hc as (Hinv & Hflag & Hcen & Hcnt & _).
  destruct ev as [pin| |i v|]; cbn [step count_edges intervals_nonzero] in *.
  - destruct (pin =? GPIO_PIN_1) eqn:Ep.
    + apply Z.eqb_eq in Ep. subst pin.
      replace (n + 1)%nat with (S n) in H2 by lia. rewrite Nat.odd_succ in H2.
      rewrite <- Nat.negb_even. destruct (Nat.even n) eqn:En; cbn [negb].
      * rewrite (callback_idle st) in Es by assumption.
        inversion Es; subst s1. exact H2.
      * destruct (Z.eq_dec (CNT (TIM2 st)) 0) as [E0|Hc0].
        -- exfalso. unfold HAL_GPIO_EXTI_Callback in Es.
           rewrite Z.eqb_refl, Hflag in Es. cbn [Z.eqb] in Es.
           destruct (zero_interval_undefined
                       (set_time_interval (HAL_TIM_GET_COUNTER (HAL_TIM_Base_Stop st))
                          (HAL_TIM_Base_Stop st))) as (_ & Hu).
           { cbn [fan_control_time_interval set_time_interval HAL_TIM_GET_COUNTER
                  HAL_TIM_Base_Stop write_TIM2 TIM2 CNT]. exact E0. }
           rewrite Hu in Es. discriminate.
        -- destruct (callback_measuring st Hinv ltac:(lia) Hc0) as (s & _ & _ & Hcb).
           rewrite Hcb in Es. inversion Es; subst s1.
           replace (CNT (TIM2 st) =? 0) with false by (symmetry; apply Z.eqb_neq; assumption).
           exact H2.
    + rewrite Nat.add_0_r in H2. unfold HAL_GPIO_EXTI_Callback in Es.
      rewrite Ep in Es. inversion Es; subst s1. exact H2.
  - rewrite Nat.add_0_r in H2. inversion Es; subst s1.
    unfold tick_TIM2 in H2. rewrite Hcen in H2.
    destruct (Nat.odd n); [|exact H2].
    cbn [put_TIM2 TIM2 CNT] in H2.
    destruct Hinv as (_ & HA & _). rewrite HA in H2. exact H2.
  - rewrite Nat.add_0_r in H2. inversion Es; subst s1. exact H2.
  - rewrite Nat.add_0_r in H2. inversion Es; subst s1. exact H2.
Qed.




(** * Between initialisation and the first tick *)

Lemma untouched_initial : untouched initial.
Proof. unfold untouched. conj; reflexivity. Qed.

Lemma untouched_run (evs : list Event) :
  forall n st,
    capture_inv n st -> untouched st -> (n + count_edges evs < 2)%nat ->
    exists st', run evs st = Some st' /\ untouched st'.
Proof.
  induction evs as [|ev evs IH]; intros n st Hc Hu Hn; cbn [run].
  - exists st. split; [reflexivity|assumption].
  - assert (Hs : exists s1, step ev st = Some s1 /\ untouched s1).
    { destruct ev as [pin| |i v|]; cbn [step].
      - unfold HAL_GPIO_EXTI_Callback.
        destruct (pin =? GPIO_PIN_1) eqn:Ep; [|exists st; auto].
        cbn [count_edges] in Hn. rewrite Ep in Hn.
        assert (n = 0)%nat by lia. subst n.
        destruct Hc as (_ & Hflag & _). cbn [Nat.even] in Hflag.
        rewrite Hflag. cbn [Z.eqb]. eexists. split; [reflexivity|].
        destruct Hu as (H1 & H2 & H3 & H4). unfold untouched.
        cbn [set_start_flag HAL_TIM_Base_Start write_TIM2 TIM3 trace output].
        rewrite existsb_snoc, H3. conj; auto.
      - eexists. split; [reflexivity|]. unfold tick_TIM2.
        destruct (CEN (TIM2 st)); exact Hu.
      - eexists. split; [reflexivity|]. exact Hu.
      - eexists. split; [reflexivity|]. exact Hu. }
    destruct Hs as (s1 & Hs & Hu1). rewrite Hs. cbn [bind].
    apply (IH (n + count_edges [ev])%nat).
    + apply (capture_inv_step ev n st); assumption.
    + assumption.
    + replace (n + count_edges [ev] + count_edges evs)%nat
        with (n + count_edges (ev :: evs))%nat; [assumption|].
      rewrite <- Nat.add_assoc. f_equal.
      destruct ev as [pin| | |]; cbn [count_edges]; try reflexivity.
      destruct (pin =? GPIO_PIN_1); reflexivity.
Qed.

Lemma existsb_erase (l : list HwOp) :
  existsb is_compare (map erase l) = existsb is_compare l.
Proof.
  induction l as [|op l IH]; cbn [map existsb]; [reflexivity|].
  rewrite IH. destruct op; reflexivity.
Qed.

Lemma edge_ops_compare (n : nat) :
  (2 <= n)%nat -> existsb is_compare (edge_ops n) = true.
Proof.
  induction n as [|k IH]; intros Hn; [lia|].
  cbn [edge_ops]. rewrite existsb_app.
  destruct (Nat.eq_dec k 1) as [->|Hk]; [reflexivity|].
  rewrite IH by lia. reflexivity.
Qed.

(** C9.  When [fan_control_init] returns, the PWM channel runs with compare
    value 0, which is below [MIN_PWM = 15]; and as long as fewer than two
    tachometer edges have arrived, whatever else happens, the system keeps
    running with that compare value: no tick has written the register, and
    [output] is not in the duty range.  From the second edge on the compare
    value is a duty value. *)
Theorem duty_zero_before_first_tick (evs : list Event) :
  (count_edges evs < 2)%nat ->
  CEN (TIM3 initial) = true /\ CCR2 (TIM3 initial) = 0 /\
  (exists st,
     run evs initial = Some st /\
     CEN (TIM3 st) = true /\
     CCR2 (TIM3 st) = 0 /\
     CCR2 (TIM3 st) < MIN_PWM /\
     existsb is_compare (trace st) = false /\
     output st = F32.of_Z 0 /\
     duty_ok (output st) = false) /\
  (forall evs' st',
     (2 <= count_edges evs')%nat -> run evs' initial = Some st' ->
     MIN_PWM <= CCR2 (TIM3 st') <= MAX_PWM).
Proof.
  intros Hn. split; [reflexivity|]. split; [reflexivity|]. split.
  - destruct (untouched_run evs 0 initial capture_inv_initial untouched_initial Hn)
      as (st & Hrun & H1 & H2 & H3 & H4).
    exists st. conj; try assumption.
    + rewrite H2. reflexivity.
    + rewrite H4. reflexivity.
  - intros evs' st' Hn' Hrun.
    destruct (capture_inv_run evs' 0 initial st' capture_inv_initial Hrun)
      as (_ & _ & _ & _ & Htr).
    destruct (duty_inv_run evs' initial st' duty_inv_initial Hrun) as [_ Hlast].
    apply Hlast.
    rewrite <- existsb_erase, Htr, existsb_app.
    cbn [Nat.add]. rewrite (edge_ops_compare _ Hn'). apply orb_true_r.
Qed.

Lemma duty_zero_before_first_tick_witness :
  (count_edges one_edge < 2)%nat /\
  exists st,
    run one_edge initial = Some st /\ CCR2 (TIM3 st) = 0.
Proof.
  assert (Hn : (count_edges one_edge < 2)%nat) by (vm_compute; lia).
  split; [exact Hn|].
  destruct (duty_zero_before_first_tick one_edge Hn)
    as (_ & _ & (st & Hr & _ & Hc & _) & _).
  exists st. split; assumption.
Defined.

(** * The saturation tests on the computed output

    The pre-clamp output of a well-formed state is canonical, so the two
    tests of the saturation are the comparisons [SFltb] of [SpecFloat]. *)
Lemma saturation_tests_SFltb (st : State) (error : Z) (st1 : State) :
  wf st -> pi_law st = Some (error, st1) ->
  valid32 (output st1) = true /\
  F32.gtb (output st1) (F32.of_Z MAX_PWM)
    = SFltb (F32.of_Z MAX_PWM) (output st1) /\
  F32.ltb (output st1) (F32.of_Z MIN_PWM)
    = SFltb (output st1) (F32.of_Z MIN_PWM).
Proof.
  intros (_ & HKp & HKi & _) Hpi.
  assert (Hv : valid32 (output st1) = true).
  { revert Hpi. unfold pi_law.
    destruct (udiv (frequency st) (u32 (fan_control_time_interval st * 2))) as [q|];
      [|discriminate].
    cbn [bind set_actual_RPM fan_control_time_interval frequency targetRPM
         fan_control_actual_RPM errorSum Kp Ki set_errorSum set_output].
    destruct (udiv (fan_control_time_interval st) (frequency st)) as [t|];
      [|discriminate].
    cbn [bind]. intros H. inversion H; subst. cbn [output set_output].
    rewrite HKp, HKi.
    apply valid32_add;
      [ apply valid32_mul; [exact valid32_Kp_init|apply valid32_of_Z]
      | apply valid32_mul;
          [ apply valid32_mul; [exact valid32_Ki_init|apply valid32_of_Z]
          | apply valid32_of_Z ] ]. }
  split; [exact Hv|]. unfold F32.gtb.
  split; apply ltb_SFltb; try assumption; apply valid32_of_Z.
Qed.

(** On every reachable state the interval is below the counter frequency,
    so the sampling period of the code is zero in every tick that runs. *)
Lemma reachable_interval_below_frequency (evs : list Event) (st : State) :
  run evs initial = Some st ->
  fan_control_time_interval st < frequency st /\
  CNT (TIM2 st) < frequency st.
Proof.
  intros Hrun.
  destruct (inv_run evs initial st inv_initial Hrun)
    as ((Hf & _) & _ & HC & HI & _).
  rewrite Hf. lia.
Qed.


(** * The tick in closed form *)

Lemma of_Z_normal_digits (z : Z) :
  z <> 0 -> Z.abs z < 2 ^ 32 ->
  normal_in (Zdigits2 z) (Zdigits2 z + 1) (F32.of_Z z) /\
  sign_of (F32.of_Z z) = (z <? 0).
Proof.
  intros Hz Hb. unfold F32.of_Z.
  assert (D : forall p, Zpos p < 2 ^ 32 -> Zpos (digits2_pos p) <= 32).
  { intros p Hp. apply (Zdigits2_le (Zpos p) 32); lia. }
  destruct z as [|p|p]; [contradiction| |]; cbn [binary_normalize Zdigits2].
  - specialize (D p ltac:(lia)).
    destruct (binary_round_normal F32.prec F32.emax ltac:(unfold F32.prec; lia)
                ltac:(unfold F32.emax; lia) false p 0) as [N S];
      unfold F32.prec, F32.emax, emin in *; try lia.
    rewrite Z.add_0_r in N. split; [exact N|exact S].
  - specialize (D p ltac:(lia)).
    destruct (binary_round_normal F32.prec F32.emax ltac:(unfold F32.prec; lia)
                ltac:(unfold F32.emax; lia) true p 0) as [N S];
      unfold F32.prec, F32.emax, emin in *; try lia.
    rewrite Z.add_0_r in N. split; [exact N|exact S].
Qed.

(** A negative number is below both limits. *)
Lemma negative_below (x : F32.float) (lo hi : Z) :
  normal_in lo hi x -> sign_of x = true ->
  F32.gtb x (F32.of_Z MAX_PWM) = false /\ F32.ltb x (F32.of_Z MIN_PWM) = true.
Proof.
  rewrite of_Z_MAX_PWM, of_Z_MIN_PWM.
  destruct x as [s|s| |s m e]; cbn [normal_in sign_of]; intros N S; try contradiction.
  subst s. unfold F32.gtb, F32.ltb. cbn [F32.compare].
  unfold F32.cmp_finite. cbn [F32.sig F32.expo cond_Zopp].
  split.
  - set (k := Z.min (-16) e).
    assert (0 < 2 ^ (e - k)) by (apply Z.pow_pos_nonneg; lia).
    assert (0 < 2 ^ (-16 - k)) by (apply Z.pow_pos_nonneg; lia).
    destruct (Z.compare_spec (13041664 * 2 ^ (-16 - k)) (- Zpos m * 2 ^ (e - k)));
      try reflexivity; nia.
  - set (k := Z.min e (-20)).
    assert (0 < 2 ^ (e - k)) by (apply Z.pow_pos_nonneg; lia).
    assert (0 < 2 ^ (-20 - k)) by (apply Z.pow_pos_nonneg; lia).
    destruct (Z.compare_spec (- Zpos m * 2 ^ (e - k)) (15728640 * 2 ^ (-20 - k)));
      try reflexivity; nia.
Qed.

(** A positive number of at least [2 ^ 8] is above the upper limit. *)
Lemma large_above (x : F32.float) (lo hi : Z) :
  normal_in lo hi x -> sign_of x = false -> 9 <= lo ->
  F32.gtb x (F32.of_Z MAX_PWM) = true.
Proof.
  rewrite of_Z_MAX_PWM.
  destruct x as [s|s| |s m e]; cbn [normal_in sign_of]; intros N S Hlo; try contradiction.
  subst s. unfold F32.gtb, F32.ltb. cbn [F32.compare].
  unfold F32.cmp_finite. cbn [F32.sig F32.expo cond_Zopp].
  set (k := Z.min (-16) e).
  assert (B := digits2_pos_bounds m).
  set (d := Zpos (digits2_pos m)) in *.
  assert (Hlt : 13041664 * 2 ^ (-16 - k) < Zpos m * 2 ^ (e - k)).
  { apply Z.lt_le_trans with (2 ^ 24 * 2 ^ (-16 - k)).
    - assert (0 < 2 ^ (-16 - k)) by (apply Z.pow_pos_nonneg; lia).
      change (2 ^ 24) with 16777216. nia.
    - apply Z.le_trans with (2 ^ (d - 1) * 2 ^ (e - k)).
      + rewrite <- !Z.pow_add_r by lia. apply Z.pow_le_mono_r; lia.
      + apply Z.mul_le_mono_nonneg_r; [apply Z.pow_nonneg|]; lia. }
  apply Z.compare_lt_iff in Hlt. rewrite Hlt. reflexivity.
Qed.

Lemma band_check_small :
  forallb band_check (map Z.of_nat (seq 1 511)) = true.
Proof. vm_compute. reflexivity. Qed.

Lemma band_check_all (e : Z) : Z.abs e < 2 ^ 32 -> band_check e = true.
Proof.
  intros Hb.
  assert (HKp : normal_in 0 0 Kp_init) by (rewrite Kp_init_value; cbn; lia).
  assert (SKp : sign_of Kp_init = false) by reflexivity.
  destruct (Z_le_gt_dec e 0) as [Hneg|Hpos].
  - (* no positive error *)
    unfold band_check. replace (e <? 16) with true by (symmetry; apply Z.ltb_lt; lia).
    destruct (Z.eq_dec e 0) as [->|Hz]; [vm_compute; reflexivity|].
    destruct (of_Z_normal e Hz Hb) as [N S].
    destruct (mul_normal _ _ _ _ _ _ HKp N ltac:(lia) ltac:(lia)) as [P SP].
    rewrite SKp, S in SP. replace (e <? 0) with true in SP by (symmetry; apply Z.ltb_lt; lia).
    destruct (negative_below _ _ _ P SP) as [Hg Hl]. cbv zeta. rewrite Hg, Hl. reflexivity.
  - destruct (Z_le_gt_dec e 511) as [Hs|Hl].
    + (* the errors checked one by one *)
      assert (H := band_check_small). rewrite forallb_forall in H. apply H.
      apply in_map_iff. exists (Z.to_nat e). split; [lia|].
      apply in_seq. lia.
    + (* at least 512 *)
      unfold band_check.
      replace (e <? 16) with false by (symmetry; apply Z.ltb_ge; lia).
      replace (203 <? e) with true by (symmetry; apply Z.ltb_lt; lia).
      destruct (of_Z_normal_digits e ltac:(lia) Hb) as [N S].
      assert (Hd : 10 <= Zdigits2 e) by (apply Zdigits2_ge; [change (2 ^ (10 - 1)) with 512|]; lia).
      assert (Hu : Zdigits2 e <= 32) by (apply Zdigits2_le; lia).
      destruct (mul_normal _ _ _ _ _ _ HKp N ltac:(lia) ltac:(lia)) as [P SP].
      rewrite SKp, S in SP. replace (e <? 0) with false in SP by (symmetry; apply Z.ltb_ge; lia).
      cbv zeta. apply (large_above _ _ _ P SP). lia.
Qed.

(** With an interval below the counter frequency the PI law stores the
    rounded product [Kp * error] in [output]. *)
Lemma pi_law_proportional (st : State) :
  wf st -> 0 < fan_control_time_interval st < frequency st ->
  let actual := frequency st / (fan_control_time_interval st * 2) * 60 in
  let error := s32 (targetRPM st - actual) in
  pi_law st =
    Some (error,
          set_output (F32.mul Kp_init (F32.of_Z error))
            (set_errorSum (s32 (errorSum st + error))
               (set_actual_RPM actual st))).
Proof.
  intros Hwf Hint actual error.
  assert (Hf : frequency st = 10000) by apply Hwf.
  assert (Hpi := pi_law_spec st Hwf ltac:(lia)). cbv zeta in Hpi.
  fold actual error in Hpi. rewrite Hpi. f_equal. f_equal. f_equal.
  destruct Hwf as (_ & HKp & HKi & _).
  rewrite (Z.div_small (fan_control_time_interval st)) by lia.
  rewrite of_Z_0, HKp, HKi.
  assert (HKi' : finite_upto 2 Ki_init) by (rewrite Ki_init_value; cbn; lia).
  assert (X := mul_upper _ _ 2 33 HKi'
                 (of_Z_finite (s32 (errorSum st + error)) (s32_abs _)) ltac:(lia)).
  rewrite (mul_zero_r _ _ X).
  apply Kp_mul_plus_zero. apply s32_abs.
Qed.

(** The whole tick, as a function of the error. *)
Lemma tick_closed_form (st : State) :
  wf st -> 0 < fan_control_time_interval st < frequency st ->
  let actual := frequency st / (fan_control_time_interval st * 2) * 60 in
  let error := s32 (targetRPM st - actual) in
  exists st',
    regulateFanSpeed st = Some st' /\
    fan_control_actual_RPM st' = actual /\
    CCR2 (TIM3 st') = duty_of_error error /\
    trace st' = trace st ++ [TIM3_SetCompare (duty_of_error error)] /\
    errorSum st' =
      (if (16 <=? error) && (error <=? 203) then s32 (errorSum st + error)
       else errorSum st).
Proof.
  intros Hwf Hint actual error.
  assert (Hpi := pi_law_proportional st Hwf Hint). cbv zeta in Hpi.
  fold actual error in Hpi.
  assert (Hb := band_check_all error (s32_abs _)).
  assert (Hes : is_s32 (errorSum st)) by apply Hwf.
  unfold regulateFanSpeed. rewrite Hpi. cbn [bind fst snd].
  unfold band_check in Hb. cbv zeta in Hb.
  unfold actuate, saturate, duty_of_error. cbn [output set_output set_errorSum].
  destruct (error <? 16) eqn:E16.
  - apply andb_true_iff in Hb. destruct Hb as [Hg Hl]. apply negb_true_iff in Hg.
    rewrite Hg, Hl. cbn [output set_output set_errorSum errorSum].
    change (F32.to_u32 (F32.of_Z MIN_PWM)) with (Some MIN_PWM). cbn [bind].
    eexists. split; [reflexivity|].
    cbn [HAL_TIM_SET_COMPARE write_TIM3 fan_control_actual_RPM TIM3 CCR2 trace
         errorSum set_errorSum set_output set_actual_RPM].
    apply Z.ltb_lt in E16.
    replace (16 <=? error) with false by (symmetry; apply Z.leb_gt; lia).
    conj; try reflexivity. apply s32_add_sub. exact Hes.
  - destruct (203 <? error) eqn:E203.
    + rewrite Hb. cbn [output set_output set_errorSum errorSum].
      change (F32.to_u32 (F32.of_Z MAX_PWM)) with (Some MAX_PWM). cbn [bind].
      eexists. split; [reflexivity|].
      cbn [HAL_TIM_SET_COMPARE write_TIM3 fan_control_actual_RPM TIM3 CCR2 trace
           errorSum set_errorSum set_output set_actual_RPM].
      apply Z.ltb_lt in E203.
      replace (error <=? 203) with false by (symmetry; apply Z.leb_gt; lia).
      rewrite andb_false_r.
      conj; try reflexivity. apply s32_add_sub. exact Hes.
    + apply andb_true_iff in Hb. destruct Hb as [Hb Hc].
      apply andb_true_iff in Hb. destruct Hb as [Hg Hl].
      apply negb_true_iff in Hg, Hl. rewrite Hg, Hl.
      cbn [output set_output].
      destruct (F32.to_u32 (F32.mul Kp_init (F32.of_Z error))) as [c|]; [|discriminate].
      apply Z.eqb_eq in Hc. subst c. cbn [bind].
      eexists. split; [reflexivity|].
      cbn [HAL_TIM_SET_COMPARE write_TIM3 fan_control_actual_RPM TIM3 CCR2 trace
           errorSum set_errorSum set_output set_actual_RPM].
      apply Z.ltb_ge in E16, E203.
      replace (16 <=? error) with true by (symmetry; apply Z.leb_le; lia).
      replace (error <=? 203) with true by (symmetry; apply Z.leb_le; lia).
      conj; reflexivity.
Qed.

Lemma wf_target_3000 : wf target_3000.
Proof. repeat split; try reflexivity; vm_compute; congruence. Qed.

(** X1.  In a tick whose interval is below the counter frequency the
    regulator is a saturated proportional controller: an error below 16 RPM
    (in particular a measured speed at or above the target) writes the duty
    15 and leaves [errorSum] as it was; an error above 203 RPM writes 199
    and leaves [errorSum] as it was; an error [e] from 16 to 203 writes the
    duty [e * 49 / 50] and adds [e] to [errorSum]. *)
Theorem proportional_band (st : State) :
  wf st -> 0 < fan_control_time_interval st < frequency st ->
  exists st',
    regulateFanSpeed st = Some st' /\
    let error := s32 (targetRPM st - fan_control_actual_RPM st') in
    (error < 16 ->
     CCR2 (TIM3 st') = 15 /\ errorSum st' = errorSum st) /\
    (203 < error ->
     CCR2 (TIM3 st') = 199 /\ errorSum st' = errorSum st) /\
    (16 <= error <= 203 ->
     CCR2 (TIM3 st') = error * 49 / 50 /\
     15 <= error * 49 / 50 <= 198 /\
     errorSum st' = s32 (errorSum st + error)).
Proof.
  intros Hwf Hint.
  destruct (tick_closed_form st Hwf Hint) as (st' & Hr & Ha & Hc & _ & He).
  exists st'. split; [exact Hr|]. rewrite Ha. cbv zeta.
  set (error := s32 (targetRPM st
                     - frequency st / (fan_control_time_interval st * 2) * 60)) in *.
  unfold duty_of_error in Hc. split; [|split].
  - intros H. replace (error <? 16) with true in Hc by (symmetry; apply Z.ltb_lt; lia).
    replace (16 <=? error) with false in He by (symmetry; apply Z.leb_gt; lia).
    split; assumption.
  - intros H. replace (error <? 16) with false in Hc by (symmetry; apply Z.ltb_ge; lia).
    replace (203 <? error) with true in Hc by (symmetry; apply Z.ltb_lt; lia).
    replace (error <=? 203) with false in He by (symmetry; apply Z.leb_gt; lia).
    rewrite andb_false_r in He. split; assumption.
  - intros H. replace (error <? 16) with false in Hc by (symmetry; apply Z.ltb_ge; lia).
    replace (203 <? error) with false in Hc by (symmetry; apply Z.ltb_ge; lia).
    replace (16 <=? error) with true in He by (symmetry; apply Z.leb_le; lia).
    replace (error <=? 203) with true in He by (symmetry; apply Z.leb_le; lia).
    split; [exact Hc|]. split; [|exact He].
    split; [apply Z.div_le_lower_bound; lia|].
    assert (error * 49 / 50 < 199) by (apply Z.div_lt_upper_bound; lia). lia.
Qed.

Lemma proportional_band_witness :
  wf target_3200 /\
  0 < fan_control_time_interval target_3200 < frequency target_3200 /\
  exists st',
    regulateFanSpeed target_3200 = Some st' /\ CCR2 (TIM3 st') = 196.
Proof.
  assert (Hr : 0 < fan_control_time_interval target_3200 < frequency target_3200)
    by (vm_compute; split; reflexivity).
  split; [exact wf_target_3200|]. split; [exact Hr|].
  destruct (proportional_band target_3200 wf_target_3200 Hr) as (st' & H & _).
  exists st'. split; [exact H|].
  vm_compute in H. injection H as <-. reflexivity.
Defined.

(** X2.  The duty a tick writes does not depend on the accumulated error:
    two ticks with the same target and the same interval (below the counter
    frequency) write the same compare value and measure the same speed,
    whatever [errorSum] and [output] held before. *)
Theorem duty_ignores_history (st1 st2 : State) :
  wf st1 -> wf st2 ->
  targetRPM st1 = targetRPM st2 ->
  fan_control_time_interval st1 = fan_control_time_interval st2 ->
  0 < fan_control_time_interval st1 < frequency st1 ->
  exists st1' st2',
    regulateFanSpeed st1 = Some st1' /\
    regulateFanSpeed st2 = Some st2' /\
    CCR2 (TIM3 st1') = CCR2 (TIM3 st2') /\
    fan_control_actual_RPM st1' = fan_control_actual_RPM st2'.
Proof.
  intros Hwf1 Hwf2 Ht Hi Hint.
  assert (Hf1 : frequency st1 = 10000) by apply Hwf1.
  assert (Hf2 : frequency st2 = 10000) by apply Hwf2.
  assert (Hint2 : 0 < fan_control_time_interval st2 < frequency st2)
    by (rewrite <- Hi, Hf2; lia).
  destruct (tick_closed_form st1 Hwf1 Hint) as (s1 & Hr1 & Ha1 & Hc1 & _).
  destruct (tick_closed_form st2 Hwf2 Hint2) as (s2 & Hr2 & Ha2 & Hc2 & _).
  exists s1, s2. split; [exact Hr1|]. split; [exact Hr2|].
  rewrite Hc1, Hc2, Ha1, Ha2, Ht, Hi, Hf1, Hf2. split; reflexivity.
Qed.

Lemma duty_ignores_history_witness :
  wf target_3200 /\ wf (set_errorSum 5000 target_3200) /\
  exists st1' st2',
    regulateFanSpeed target_3200 = Some st1' /\
    regulateFanSpeed (set_errorSum 5000 target_3200) = Some st2' /\
    CCR2 (TIM3 st1') = CCR2 (TIM3 st2').
Proof.
  assert (Hw2 : wf (set_errorSum 5000 target_3200))
    by (repeat split; try reflexivity; vm_compute; congruence).
  assert (Hr : 0 < fan_control_time_interval target_3200 < frequency target_3200)
    by (vm_compute; split; reflexivity).
  split; [exact wf_target_3200|]. split; [exact Hw2|].
  destruct (duty_ignores_history target_3200 (set_errorSum 5000 target_3200)
              wf_target_3200 Hw2 eq_refl eq_refl Hr)
    as (s1 & s2 & H1 & H2 & H3 & _).
  exists s1, s2. split; [exact H1|]. split; [exact H2|exact H3].
Defined.

(** * Runs of the system, event by event *)

(** What a tick leaves alone besides the fields of
    [regulateFanSpeed_effect]. *)
Lemma regulateFanSpeed_keeps (st st' : State) :
  regulateFanSpeed st = Some st' ->
  fan_control_poti_val st' = fan_control_poti_val st /\
  ARR (TIM3 st') = ARR (TIM3 st) /\ CNT (TIM3 st') = CNT (TIM3 st).
Proof.
  unfold regulateFanSpeed, pi_law.
  destruct (udiv (frequency st) (u32 (fan_control_time_interval st * 2))) as [q|];
    [|discriminate].
  cbn [bind set_actual_RPM fan_control_time_interval frequency targetRPM
       fan_control_actual_RPM errorSum Kp Ki set_errorSum set_output].
  destruct (udiv (fan_control_time_interval st) (frequency st)) as [t|];
    [|discriminate].
  cbn [bind fst snd]. unfold actuate.
  set (error := s32 (u32 (targetRPM st - u32 (q * 60)))).
  set (st1 := set_output _ _).
  destruct (F32.to_u32 (output (saturate error st1))) as [c|]; [|discriminate].
  cbn [bind]. intros H. inversion H; subst st'; clear H.
  unfold saturate.
  destruct (F32.gtb (output st1) (F32.of_Z MAX_PWM));
    [|destruct (F32.ltb (output st1) (F32.of_Z MIN_PWM))]; cbn; repeat split.
Qed.

Lemma duty_of_error_range (error : Z) :
  MIN_PWM <= duty_of_error error <= MAX_PWM.
Proof.
  unfold duty_of_error, MIN_PWM, MAX_PWM.
  destruct (error <? 16) eqn:E1; [lia|]. apply Z.ltb_ge in E1.
  destruct (203 <? error) eqn:E2; [lia|]. apply Z.ltb_ge in E2.
  split; [apply Z.div_le_lower_bound; lia|].
  apply Z.div_le_upper_bound; lia.
Qed.

(** The edge that closes a measurement, in full. *)
Lemma step_closing (n : nat) (st st' : State) :
  capture_inv n st -> Nat.even n = false ->
  step (EvEdge GPIO_PIN_1) st = Some st' ->
  let actual := 10000 / (CNT (TIM2 st) * 2) * 60 in
  let error := s32 (targetRPM st - actual) in
  0 < CNT (TIM2 st) <= 9999 /\
  fan_control_time_interval st' = CNT (TIM2 st) /\
  fan_control_actual_RPM st' = actual /\
  CCR2 (TIM3 st') = duty_of_error error /\
  errorSum st' =
    (if (16 <=? error) && (error <=? 203) then s32 (errorSum st + error)
     else errorSum st) /\
  targetRPM st' = targetRPM st /\
  fan_control_poti_val st' = fan_control_poti_val st /\
  ARR (TIM3 st') = ARR (TIM3 st) /\ CEN (TIM3 st') = CEN (TIM3 st).
Proof.
  intros Hc En Hstep actual error. cbn [step] in Hstep.
  destruct Hc as (Hinv & Hflag & _). rewrite En in Hflag.
  assert (Hrange : 0 <= CNT (TIM2 st) <= 9999) by apply Hinv.
  assert (Hc0 : CNT (TIM2 st) <> 0).
  { intros E0. unfold HAL_GPIO_EXTI_Callback in Hstep.
    rewrite Z.eqb_refl, Hflag in Hstep. cbn [Z.eqb] in Hstep.
    destruct (zero_interval_undefined
                (set_time_interval (HAL_TIM_GET_COUNTER (HAL_TIM_Base_Stop st))
                   (HAL_TIM_Base_Stop st))) as (_ & Hu).
    { cbn [fan_control_time_interval set_time_interval HAL_TIM_GET_COUNTER
           HAL_TIM_Base_Stop write_TIM2 TIM2 CNT]. exact E0. }
    rewrite Hu in Hstep. discriminate. }
  destruct (callback_measuring st Hinv ltac:(lia) Hc0) as (s1 & Hr & _ & Hcb).
  rewrite Hcb in Hstep. inversion Hstep; subst st'; clear Hstep.
  assert (Hs := inv_sampled st Hinv).
  cbn [HAL_TIM_GET_COUNTER HAL_TIM_Base_Stop write_TIM2 TIM2 CNT] in Hs.
  set (sm := set_time_interval (CNT (TIM2 st)) (HAL_TIM_Base_Stop st)) in *.
  assert (Hf : frequency sm = 10000) by apply Hs.
  assert (Hi : fan_control_time_interval sm = CNT (TIM2 st)) by reflexivity.
  assert (Ht : targetRPM sm = targetRPM st) by reflexivity.
  assert (He : errorSum sm = errorSum st) by reflexivity.
  assert (Hp : fan_control_poti_val sm = fan_control_poti_val st) by reflexivity.
  assert (H3 : TIM3 sm = TIM3 st) by reflexivity.
  assert (Hint : 0 < fan_control_time_interval sm < frequency sm)
    by (rewrite Hi, Hf; lia).
  destruct (tick_closed_form sm (proj1 Hs) Hint) as (s1' & Hr' & Ha & Hcc & _ & Hes).
  rewrite Hr in Hr'. inversion Hr'; subst s1'; clear Hr'.
  rewrite Hf, Hi in Ha. rewrite Hf, Hi, Ht in Hcc, Hes. rewrite He in Hes.
  fold actual in Ha, Hcc, Hes. fold error in Hcc, Hes.
  destruct (regulateFanSpeed_effect _ _ Hr)
    as (Hi1 & _ & _ & Ht1 & _ & _ & _ & _ & Hcen & _).
  destruct (regulateFanSpeed_keeps _ _ Hr) as (Hp1 & Harr & _).
  cbn [set_start_flag HAL_TIM_SET_COUNTER write_TIM2 fan_control_time_interval
       fan_control_actual_RPM TIM3 errorSum targetRPM fan_control_poti_val].
  rewrite Hi1, Hi, Ht1, Ht, Hp1, Hp, Harr, Hcen, H3.
  conj; try assumption; try reflexivity; lia.
Qed.

(** Every other event leaves the regulator and the PWM alone. *)
Lemma step_other (ev : Event) (st st' : State) :
  step ev st = Some st' ->
  (ev = EvEdge GPIO_PIN_1 /\ fan_start_flag st <> 0) \/
  (fan_control_time_interval st' = fan_control_time_interval st /\
   fan_control_actual_RPM st' = fan_control_actual_RPM st /\
   errorSum st' = errorSum st /\ output st' = output st /\
   TIM3 st' = TIM3 st /\
   (fan_control_poti_val st = targetRPM st ->
    fan_control_poti_val st' = targetRPM st')).
Proof.
  destruct ev as [pin| |i v|]; cbn [step]; intros H.
  - unfold HAL_GPIO_EXTI_Callback in H.
    destruct (pin =? GPIO_PIN_1) eqn:Ep.
    + apply Z.eqb_eq in Ep. subst pin.
      destruct (fan_start_flag st =? 0) eqn:Ef.
      * right. inversion H; subst. cbn. conj; auto.
      * left. apply Z.eqb_neq in Ef. auto.
    + right. inversion H; subst. conj; auto.
  - right. inversion H; subst. unfold tick_TIM2.
    destruct (CEN (TIM2 st)); cbn; conj; auto.
  - right. inversion H; subst. cbn. conj; auto.
  - right. inversion H; subst. cbn. conj; auto.
Qed.

Lemma capture_flag_odd (n : nat) (st : State) :
  capture_inv n st -> fan_start_flag st <> 0 -> Nat.even n = false.
Proof.
  intros (_ & Hflag & _) Hne. destruct (Nat.even n); [congruence|reflexivity].
Qed.

(** Induction along a run, with the number of edges seen so far. *)
Lemma run_invariant (P : nat -> State -> Prop) :
  (forall ev n st st',
     capture_inv n st -> P n st -> step ev st = Some st' ->
     P (n + count_edges [ev])%nat st') ->
  forall evs n st st',
    capture_inv n st -> P n st -> run evs st = Some st' ->
    P (n + count_edges evs)%nat st'.
Proof.
  intros Hstep. induction evs as [|ev evs IH]; intros n st st' Hc HP; cbn [run].
  - intros H. inversion H; subst. cbn [count_edges]. rewrite Nat.add_0_r. assumption.
  - destruct (step ev st) as [s1|] eqn:Es; [|discriminate]. cbn [bind]. intros Hr.
    assert (H1 := capture_inv_step ev n st s1 Hc Es).
    assert (H2 := IH _ _ _ H1 (Hstep _ _ _ _ Hc HP Es) Hr).
    rewrite (count_edges_cons ev evs), Nat.add_assoc. exact H2.
Qed.

Lemma count_edges_one (ev : Event) : (count_edges [ev] <= 1)%nat.
Proof.
  destruct ev as [pin| | |]; cbn [count_edges]; try lia.
  destruct (pin =? GPIO_PIN_1); lia.
Qed.

(** X3.  The integrator only winds up.  After a run with [n] tachometer
    edges, hence [n / 2] ticks, [errorSum] lies between 0 and
    [203 * (n / 2)]: a tick adds an error of 16 to 203 RPM or nothing, and
    nothing ever subtracts (as long as that bound is below [2 ^ 31], so that
    the [int32_t] sum cannot wrap). *)
Theorem integrator_only_accumulates (evs : list Event) (st : State) :
  run evs initial = Some st ->
  203 * (Z.of_nat (count_edges evs) / 2) < 2 ^ 31 ->
  0 <= errorSum st <= 203 * (Z.of_nat (count_edges evs) / 2).
Proof.
  intros Hrun.
  pose (P := fun (n : nat) (s : State) =>
               203 * (Z.of_nat n / 2) < 2 ^ 31 ->
               0 <= errorSum s <= 203 * (Z.of_nat n / 2)).
  apply (run_invariant P) with (n := O) (st := initial) (evs := evs);
    [|exact capture_inv_initial|intros _; vm_compute; split; congruence|exact Hrun].
  clear. intros ev n st st' Hc HP Hstep. unfold P in *. intros Hlt.
  assert (H1 := count_edges_one ev).
  assert (Hmono : Z.of_nat n / 2 <= Z.of_nat (n + count_edges [ev]) / 2)
    by (apply Z.div_le_mono; lia).
  specialize (HP ltac:(lia)).
  destruct (step_other ev st st' Hstep) as [(-> & Hf)|(_ & _ & He & _)];
    [|rewrite He; lia].
  assert (En := capture_flag_odd n st Hc Hf).
  destruct (step_closing n st st' Hc En Hstep) as (_ & _ & _ & _ & He & _).
  cbn [count_edges] in Hlt |- *. change (GPIO_PIN_1 =? GPIO_PIN_1) with true in *.
  cbv iota in Hlt |- *.
  assert (Hodd : Z.of_nat (n + 1) / 2 = Z.of_nat n / 2 + 1).
  { rewrite <- Nat.negb_odd in En. apply negb_false_iff, Nat.odd_spec in En.
    destruct En as (m & ->).
    replace (Z.of_nat (2 * m + 1 + 1)) with ((Z.of_nat m + 1) * 2) by lia.
    replace (Z.of_nat (2 * m + 1)) with (1 + Z.of_nat m * 2) by lia.
    rewrite Z.div_mul, Z.div_add by lia. reflexivity. }
  rewrite Hodd in *. rewrite He.
  destruct ((16 <=? _) && (_ <=? 203)) eqn:Eb; [|lia].
  apply andb_true_iff in Eb. destruct Eb as [E1 E2].
  apply Z.leb_le in E1, E2.
  rewrite s32_id by (unfold is_s32; lia). lia.
Qed.

Lemma integrator_only_accumulates_witness :
  run half_revolution initial = Some (after_run half_revolution) /\
  0 <= errorSum (after_run half_revolution) <= 203.
Proof.
  assert (Hrun : run half_revolution initial = Some (after_run half_revolution))
    by (vm_compute; reflexivity).
  split; [exact Hrun|].
  exact (integrator_only_accumulates half_revolution _ Hrun ltac:(vm_compute; reflexivity)).
Defined.

(** X4.  The two measurement variables that [main] displays always belong
    together: in every reachable state [fan_control_actual_RPM] is the speed
    estimate of the displayed [fan_control_time_interval] (0 before the
    first measurement).  Hence the displayed speed is a multiple of 60 RPM,
    at most 300000, and reads 0 for every interval above 5000 counts. *)
Theorem displayed_speed_matches_interval (evs : list Event) (st : State) :
  run evs initial = Some st ->
  fan_control_actual_RPM st =
    (if fan_control_time_interval st =? 0 then 0
     else frequency st / (fan_control_time_interval st * 2) * 60) /\
  fan_control_actual_RPM st mod 60 = 0 /\
  0 <= fan_control_actual_RPM st <= 300000 /\
  (5000 < fan_control_time_interval st -> fan_control_actual_RPM st = 0).
Proof.
  intros Hrun.
  assert (Hinv := inv_run evs initial st inv_initial Hrun).
  assert (Hf : frequency st = 10000) by apply Hinv.
  assert (Hi : 0 <= fan_control_time_interval st <= 9999) by apply Hinv.
  pose (P := fun (n : nat) (s : State) =>
               fan_control_actual_RPM s =
               (if fan_control_time_interval s =? 0 then 0
                else 10000 / (fan_control_time_interval s * 2) * 60)).
  assert (HP : P (0 + count_edges evs)%nat st).
  { apply (run_invariant P) with (st := initial);
      [|exact capture_inv_initial|reflexivity|exact Hrun].
    clear. intros ev n st st' Hc HP Hstep. unfold P in *.
    destruct (step_other ev st st' Hstep) as [(-> & Hfl)|(Hi & Ha & _)];
      [|rewrite Hi, Ha; exact HP].
    assert (En := capture_flag_odd n st Hc Hfl).
    destruct (step_closing n st st' Hc En Hstep) as (Hr & Hi & Ha & _).
    rewrite Hi, Ha.
    replace (CNT (TIM2 st) =? 0) with false by (symmetry; apply Z.eqb_neq; lia).
    reflexivity. }
  unfold P in HP. rewrite Hf. split; [exact HP|]. rewrite HP.
  destruct (fan_control_time_interval st =? 0) eqn:E0.
  - repeat split; try reflexivity; lia.
  - apply Z.eqb_neq in E0.
    set (q := 10000 / (fan_control_time_interval st * 2)).
    assert (Hq : 0 <= q <= 5000).
    { subst q. split; [apply Z.div_pos; lia|]. apply Z.div_le_upper_bound; lia. }
    split; [apply Z.mod_mul; lia|]. split; [lia|].
    intros H5. subst q. rewrite Z.div_small by lia. reflexivity.
Qed.

Lemma displayed_speed_matches_interval_witness :
  run half_revolution initial = Some (after_run half_revolution) /\
  fan_control_time_interval (after_run half_revolution) = 2 /\
  fan_control_actual_RPM (after_run half_revolution) = 150000.
Proof.
  assert (Hrun : run half_revolution initial = Some (after_run half_revolution))
    by (vm_compute; reflexivity).
  split; [exact Hrun|]. split; [vm_compute; reflexivity|].
  destruct (displayed_speed_matches_interval half_revolution _ Hrun) as (H & _).
  rewrite H. vm_compute. reflexivity.
Defined.

(** X5.  The PWM is never switched off and its period never changes: in
    every reachable state timer 3 runs with the period register 199 of
    [fan_control_timer_3_init], the compare value is 0 or a duty from 15 to
    199, and so never exceeds the period register; timer 2 keeps the period
    register 9999. *)
Theorem pwm_stays_configured (evs : list Event) (st : State) :
  run evs initial = Some st ->
  CEN (TIM3 st) = true /\ ARR (TIM3 st) = 199 /\
  (CCR2 (TIM3 st) = 0 \/ MIN_PWM <= CCR2 (TIM3 st) <= MAX_PWM) /\
  0 <= CCR2 (TIM3 st) <= ARR (TIM3 st) /\
  ARR (TIM2 st) = 9999.
Proof.
  intros Hrun.
  assert (Hinv := inv_run evs initial st inv_initial Hrun).
  pose (P := fun (n : nat) (s : State) =>
               CEN (TIM3 s) = true /\ ARR (TIM3 s) = 199 /\
               (CCR2 (TIM3 s) = 0 \/ MIN_PWM <= CCR2 (TIM3 s) <= MAX_PWM)).
  assert (HP : P (0 + count_edges evs)%nat st).
  { apply (run_invariant P) with (st := initial);
      [|exact capture_inv_initial|repeat split; left; reflexivity|exact Hrun].
    clear. intros ev n st st' Hc HP Hstep. unfold P in *.
    destruct (step_other ev st st' Hstep) as [(-> & Hfl)|(_ & _ & _ & _ & H3 & _)];
      [|rewrite H3; exact HP].
    assert (En := capture_flag_odd n st Hc Hfl).
    destruct (step_closing n st st' Hc En Hstep)
      as (_ & _ & _ & Hcc & _ & _ & _ & Harr & Hcen).
    rewrite Hcc, Harr, Hcen. destruct HP as (H1 & H2 & _).
    split; [exact H1|]. split; [exact H2|]. right. apply duty_of_error_range. }
  destruct HP as (H1 & H2 & H3).
  split; [exact H1|]. split; [exact H2|]. split; [exact H3|].
  split; [|apply Hinv]. rewrite H2. unfold MIN_PWM, MAX_PWM in H3. lia.
Qed.

Lemma pwm_stays_configured_witness :
  run three_edges initial = Some (after_run three_edges) /\
  CEN (TIM3 (after_run three_edges)) = true /\
  ARR (TIM3 (after_run three_edges)) = 199.
Proof.
  assert (Hrun : run three_edges initial = Some (after_run three_edges))
    by (vm_compute; reflexivity).
  split; [exact Hrun|].
  destruct (pwm_stays_configured three_edges _ Hrun) as (H1 & H2 & _).
  split; [exact H1|exact H2].
Defined.

(** While a measurement is open, [k] clocks advance the counter by [k]
    modulo the period of 10000. *)
Lemma run_clocks (k : nat) :
  forall (n : nat) (st : State) (rest : list Event),
    capture_inv n st -> Nat.odd n = true ->
    exists st',
      run (repeat EvClock k ++ rest) st = run rest st' /\
      capture_inv n st' /\
      CNT (TIM2 st') = (CNT (TIM2 st) + Z.of_nat k) mod 10000.
Proof.
  induction k as [|k IH]; intros n st rest Hc Hodd.
  - exists st. split; [reflexivity|]. split; [exact Hc|].
    assert (Hr : 0 <= CNT (TIM2 st) <= 9999) by apply Hc.
    rewrite Z.add_0_r, Z.mod_small by lia. reflexivity.
  - cbn [repeat app run step bind].
    assert (Hc1 : capture_inv n (tick_TIM2 st)).
    { assert (H := capture_inv_step EvClock n st _ Hc eq_refl).
      cbn [count_edges] in H. rewrite Nat.add_0_r in H. exact H. }
    destruct (IH n (tick_TIM2 st) rest Hc1 Hodd) as (st' & Hrun & Hc' & Hcnt).
    exists st'. split; [exact Hrun|]. split; [exact Hc'|].
    rewrite Hcnt. destruct Hc as (Hinv & _ & Hcen & _).
    destruct Hinv as (_ & HA & HR & _).
    unfold tick_TIM2. rewrite Hcen, Hodd. cbn [put_TIM2 TIM2 CNT]. rewrite HA.
    rewrite Nat2Z.inj_succ.
    destruct (CNT (TIM2 st) <? 9999) eqn:E.
    + f_equal. lia.
    + apply Z.ltb_ge in E. assert (E9 : CNT (TIM2 st) = 9999) by lia.
      rewrite E9. replace (9999 + Z.succ (Z.of_nat k)) with (Z.of_nat k + 1 * 10000) by lia.
      rewrite Z.mod_add by lia. reflexivity.
Qed.

(** X6.  A measurement counts the clocks between two edges modulo 10000.
    From any reachable Idle state, an edge, [k] clocks of timer 2 and a
    second edge leave [k mod 10000] in [fan_control_time_interval] and the
    speed estimate of that value in [fan_control_actual_RPM]; an interval of
    10000 clocks or more is thus measured as its remainder, and when the
    remainder is 0 (also for [k = 0]) the tick divides by zero. *)
Theorem capture_counts_clocks (evs : list Event) (st : State) (k : nat) :
  run evs initial = Some st ->
  Nat.even (count_edges evs) = true ->
  let i := Z.of_nat k mod 10000 in
  let measurement :=
    [EvEdge GPIO_PIN_1] ++ repeat EvClock k ++ [EvEdge GPIO_PIN_1] in
  (i = 0 -> run measurement st = None) /\
  (i <> 0 ->
   exists st',
     run measurement st = Some st' /\
     fan_control_time_interval st' = i /\
     fan_control_actual_RPM st' = 10000 / (i * 2) * 60 /\
     fan_start_flag st' = 0 /\ CNT (TIM2 st') = 0).
Proof.
  intros Hrun Hev i measurement.
  assert (Hc := capture_inv_run evs 0 initial st capture_inv_initial Hrun).
  cbn [Nat.add] in Hc. set (n := count_edges evs) in *.
  assert (Hflag : fan_start_flag st = 0).
  { destruct Hc as (_ & Hflag & _). rewrite Hev in Hflag. exact Hflag. }
  assert (Hcnt : CNT (TIM2 st) = 0) by (apply Hc; exact Hev).
  assert (Hopen := callback_idle st Hflag).
  set (s1 := set_start_flag 1 (HAL_TIM_Base_Start st)) in *.
  assert (Hc1 : capture_inv (S n) s1).
  { assert (H := capture_inv_step (EvEdge GPIO_PIN_1) n st s1 Hc Hopen).
    cbn [count_edges] in H. change (GPIO_PIN_1 =? GPIO_PIN_1) with true in H.
    cbv iota in H. rewrite Nat.add_1_r in H. exact H. }
  assert (Hodd : Nat.odd (S n) = true)
    by (rewrite Nat.odd_succ; exact Hev).
  destruct (run_clocks k (S n) s1 [EvEdge GPIO_PIN_1] Hc1 Hodd)
    as (s2 & Hrun2 & Hc2 & Hcnt2).
  assert (E1 : CNT (TIM2 s1) = 0) by exact Hcnt.
  rewrite E1, Z.add_0_l in Hcnt2. fold i in Hcnt2.
  assert (Hm : run measurement st = run [EvEdge GPIO_PIN_1] s2).
  { unfold measurement. cbn [app run step]. rewrite Hopen. cbn [bind]. exact Hrun2. }
  rewrite Hm. cbn [run step].
  assert (En : Nat.even (S n) = false)
    by (rewrite <- Nat.negb_odd, Hodd; reflexivity).
  split.
  - intros E0. unfold HAL_GPIO_EXTI_Callback. rewrite Z.eqb_refl.
    destruct Hc2 as (_ & Hf2 & _). rewrite En in Hf2. rewrite Hf2. cbn [Z.eqb].
    destruct (zero_interval_undefined
                (set_time_interval (HAL_TIM_GET_COUNTER (HAL_TIM_Base_Stop s2))
                   (HAL_TIM_Base_Stop s2))) as (_ & Hu).
    { cbn [fan_control_time_interval set_time_interval HAL_TIM_GET_COUNTER
           HAL_TIM_Base_Stop write_TIM2 TIM2 CNT]. rewrite Hcnt2. exact E0. }
    rewrite Hu. reflexivity.
  - intros Hne.
    assert (Hf2 : fan_start_flag s2 <> 0).
    { destruct Hc2 as (_ & Hf2 & _). rewrite En in Hf2. rewrite Hf2. discriminate. }
    assert (Hn0 : CNT (TIM2 s2) <> 0) by (rewrite Hcnt2; exact Hne).
    destruct (callback_measuring s2 (proj1 Hc2) Hf2 Hn0) as (s3 & _ & _ & Hcb).
    rewrite Hcb. cbn [bind]. eexists. split; [reflexivity|].
    assert (Hstep : step (EvEdge GPIO_PIN_1) s2
                    = Some (set_start_flag 0 (HAL_TIM_SET_COUNTER 0 s3))) by exact Hcb.
    destruct (step_closing (S n) s2 _ Hc2 En Hstep) as (_ & Hi & Ha & _).
    rewrite Hi, Ha, Hcnt2. repeat split; reflexivity.
Qed.

Lemma capture_counts_clocks_witness :
  exists st',
    run ([EvEdge GPIO_PIN_1] ++ repeat EvClock (101 * 100) ++ [EvEdge GPIO_PIN_1]) initial
      = Some st' /\
    fan_control_time_interval st' = 100 /\
    fan_control_actual_RPM st' = 3000.
Proof.
  destruct (capture_counts_clocks [] initial (101 * 100) eq_refl eq_refl) as (_ & H).
  destruct (H ltac:(vm_compute; discriminate)) as (st' & Hr & Hi & Ha & _).
  exists st'. split; [exact Hr|]. split; [exact Hi|exact Ha].
Defined.

(** X7.  Without tachometer edges nothing regulates.  A run of any length
    that contains no edge on pin 1 -- clocks, DMA transfers, iterations of
    the main loop, interrupts of other pins -- is defined from every state
    and leaves the interval, the measured speed, [errorSum], [output], the
    capture flag, timer 3 with its compare value and the recorded register
    writes exactly as they were: a fan that stops turning keeps the last
    duty. *)
Theorem stalled_fan_keeps_duty (evs : list Event) (st : State) :
  count_edges evs = O ->
  exists st',
    run evs st = Some st' /\
    fan_control_time_interval st' = fan_control_time_interval st /\
    fan_control_actual_RPM st' = fan_control_actual_RPM st /\
    errorSum st' = errorSum st /\ output st' = output st /\
    fan_start_flag st' = fan_start_flag st /\
    TIM3 st' = TIM3 st /\ trace st' = trace st.
Proof.
  revert st. induction evs as [|ev evs IH]; intros st Hn.
  - exists st. repeat split; reflexivity.
  - rewrite count_edges_cons in Hn.
    assert (H0 : count_edges [ev] = O) by lia.
    assert (Hs : exists s1,
               step ev st = Some s1 /\
               fan_control_time_interval s1 = fan_control_time_interval st /\
               fan_control_actual_RPM s1 = fan_control_actual_RPM st /\
               errorSum s1 = errorSum st /\ output s1 = output st /\
               fan_start_flag s1 = fan_start_flag st /\
               TIM3 s1 = TIM3 st /\ trace s1 = trace st).
    { destruct ev as [pin| |i v|]; cbn [step count_edges] in *.
      - unfold HAL_GPIO_EXTI_Callback.
        destruct (pin =? GPIO_PIN_1); [discriminate|].
        exists st. repeat split; reflexivity.
      - eexists. split; [reflexivity|]. unfold tick_TIM2.
        destruct (CEN (TIM2 st)); cbn; repeat split; reflexivity.
      - eexists. split; [reflexivity|]. cbn. repeat split; reflexivity.
      - eexists. split; [reflexivity|]. cbn. repeat split; reflexivity. }
    destruct Hs as (s1 & Hs & A1 & A2 & A3 & A4 & A5 & A6 & A7).
    destruct (IH s1 ltac:(lia)) as (st' & Hr & B1 & B2 & B3 & B4 & B5 & B6 & B7).
    exists st'. cbn [run]. rewrite Hs. cbn [bind].
    split; [exact Hr|]. repeat split; congruence.
Qed.

Lemma stalled_fan_keeps_duty_witness :
  exists st',
    run one_edge_free target_3200 = Some st' /\
    TIM3 st' = TIM3 target_3200.
Proof.
  destruct (stalled_fan_keeps_duty one_edge_free target_3200 eq_refl)
    as (st' & Hr & _ & _ & _ & _ & _ & H3 & _).
  exists st'. split; [exact Hr|exact H3].
Defined.

(** * The potentiometer average and the set-point *)

Lemma sum_between (buf : list Z) (off : nat) (lo hi : Z) (l : list nat) :
  (forall k, In k l -> lo <= nth (2 * k + off) buf 0 <= hi) ->
  0 <= lo ->
  forall acc,
    0 <= acc -> acc + hi * Z.of_nat (length l) < 2 ^ 32 ->
    acc + lo * Z.of_nat (length l)
    <= fold_left (fun tmp k => u32 (tmp + nth (2 * k + off) buf 0)) l acc
    <= acc + hi * Z.of_nat (length l).
Proof.
  intros Hb Hlo. induction l as [|k l IH]; intros acc H0 Hlt; cbn [fold_left length].
  - lia.
  - assert (Hn := Hb k (or_introl eq_refl)).
    cbn [length] in Hlt. rewrite Nat2Z.inj_succ in *.
    assert (Hp : 0 <= hi * Z.of_nat (length l)) by (apply Z.mul_nonneg_nonneg; lia).
    rewrite u32_id by (unfold is_u32; lia).
    specialize (IH (fun j Hj => Hb j (or_intror Hj))
                   (acc + nth (2 * k + off) buf 0) ltac:(lia) ltac:(lia)).
    lia.
Qed.

Lemma sum_channel_between (buf : list Z) (off : nat) (lo hi : Z) :
  (forall k, (k < 100)%nat -> lo <= nth (2 * k + off) buf 0 <= hi) ->
  0 <= lo -> hi * 100 < 2 ^ 32 ->
  lo * 100 <= sum_channel off buf <= hi * 100.
Proof.
  intros Hb Hlo Hhi. unfold sum_channel.
  assert (H := sum_between buf off lo hi (seq 0 100)).
  rewrite length_seq in H. change (Z.of_nat 100) with 100 in H.
  assert (Hk : forall k, In k (seq 0 100) -> lo <= nth (2 * k + off) buf 0 <= hi)
    by (intros k Hk; apply in_seq in Hk; apply Hb; lia).
  specialize (H Hk Hlo 0 ltac:(lia) ltac:(lia)). lia.
Qed.

Lemma potis_dma_get_avg_channel (off : nat) (st : State) :
  (off <= 1)%nat ->
  potis_dma_get_avg (Z.of_nat (S off)) st
  = u32 (sum_channel off (dma_address st)) / 100.
Proof.
  intros Hoff. assert (E : off = 0%nat \/ off = 1%nat) by lia.
  destruct E as [-> | ->]; reflexivity.
Qed.

Lemma avg_between (off : nat) (st : State) (lo hi : Z) :
  (off <= 1)%nat -> 0 <= lo -> hi * 100 < 2 ^ 32 ->
  (forall k, (k < 100)%nat -> lo <= nth (2 * k + off) (dma_address st) 0 <= hi) ->
  lo <= potis_dma_get_avg (Z.of_nat (S off)) st <= hi.
Proof.
  intros Hoff Hlo Hhi Hb.
  assert (H := sum_channel_between (dma_address st) off lo hi Hb Hlo Hhi).
  rewrite potis_dma_get_avg_channel by exact Hoff.
  rewrite u32_id by (unfold is_u32; lia).
  split; [apply Z.div_le_lower_bound; lia|].
  apply Z.div_le_upper_bound; lia.
Qed.

(** X8.  The average lies between the smallest and the largest sample of
    its channel.  With [off = 0] for [POTIS_DMA_1] (the even buffer entries)
    and [off = 1] for [POTIS_DMA_2] (the odd ones): when the hundred samples
    of the channel lie in [lo, hi] (and [100 * hi] fits [uint32_t], as every
    12-bit sample does), so does the value [potis_dma_get_avg] returns; a
    channel whose samples all equal [v] averages to [v]. *)
Theorem potis_dma_get_avg_between (off : nat) (st : State) (lo hi : Z) :
  (off <= 1)%nat -> 0 <= lo -> hi * 100 < 2 ^ 32 ->
  (forall k, (k < 100)%nat -> lo <= nth (2 * k + off) (dma_address st) 0 <= hi) ->
  lo <= potis_dma_get_avg (Z.of_nat (S off)) st <= hi /\
  (lo = hi -> potis_dma_get_avg (Z.of_nat (S off)) st = lo).
Proof.
  intros Hoff Hlo Hhi Hb.
  assert (H := avg_between off st lo hi Hoff Hlo Hhi Hb).
  split; [exact H|]. intros E. lia.
Qed.

Lemma nth_repeat_200 (v : Z) (j : nat) :
  (j < 200)%nat -> nth j (repeat v 200) 0 = v.
Proof.
  intros Hj. apply nth_error_nth with (d := 0).
  rewrite nth_error_repeat by exact Hj. reflexivity.
Qed.

Lemma potis_dma_get_avg_between_witness :
  potis_dma_get_avg POTIS_DMA_2 full_scale = 4095.
Proof.
  assert (Hb : forall k, (k < 100)%nat ->
               4095 <= nth (2 * k + 1) (dma_address full_scale) 0 <= 4095).
  { intros k Hk.
    change (dma_address full_scale) with (repeat 4095 200).
    rewrite nth_repeat_200 by lia. lia. }
  destruct (potis_dma_get_avg_between 1 full_scale 4095 4095
              ltac:(lia) ltac:(lia) ltac:(lia) Hb) as (_ & H).
  exact (H eq_refl).
Defined.

Lemma nth_store_other (buf : list Z) (i j : nat) (v : Z) :
  i <> j -> nth j (store i v buf) 0 = nth j buf 0.
Proof.
  revert i j. induction buf as [|x buf IH]; intros [|i] [|j] Hne; cbn [store nth];
    try reflexivity; try congruence.
  apply IH. congruence.
Qed.

Lemma sum_ext (buf1 buf2 : list Z) (off : nat) (l : list nat) :
  (forall k, nth (2 * k + off) buf1 0 = nth (2 * k + off) buf2 0) ->
  forall acc,
    fold_left (fun tmp k => u32 (tmp + nth (2 * k + off) buf1 0)) l acc
    = fold_left (fun tmp k => u32 (tmp + nth (2 * k + off) buf2 0)) l acc.
Proof.
  intros He. induction l as [|k l IH]; intros acc; cbn [fold_left]; [reflexivity|].
  rewrite He. apply IH.
Qed.

Lemma sum_channel_store (buf : list Z) (off i : nat) (v : Z) :
  (forall k, i <> (2 * k + off)%nat) ->
  sum_channel off (store i v buf) = sum_channel off buf.
Proof.
  intros Hne. unfold sum_channel. apply sum_ext.
  intros k. apply nth_store_other. apply Hne.
Qed.

(** X9.  The two channels do not mix.  A DMA transfer into an odd buffer
    entry changes neither the average of channel 1 nor the target that
    [fan_control_set_rpm] derives from it; a transfer into an even entry
    does not change the average of channel 2; and for an input (a
    [uint8_t], from 0 to 255) that names neither channel
    [potis_dma_get_avg] returns 0. *)
Theorem channels_do_not_mix (st : State) (i : nat) (v : Z) :
  (Nat.odd i = true ->
   potis_dma_get_avg POTIS_DMA_1 (dma_transfer i v st)
     = potis_dma_get_avg POTIS_DMA_1 st /\
   targetRPM (fan_control_set_rpm (dma_transfer i v st))
     = targetRPM (fan_control_set_rpm st)) /\
  (Nat.even i = true ->
   potis_dma_get_avg POTIS_DMA_2 (dma_transfer i v st)
     = potis_dma_get_avg POTIS_DMA_2 st) /\
  (forall input,
     0 <= input <= 255 ->
     input <> POTIS_DMA_1 -> input <> POTIS_DMA_2 ->
     potis_dma_get_avg input st = 0).
Proof.
  split; [|split].
  - intros Hodd.
    assert (E : potis_dma_get_avg POTIS_DMA_1 (dma_transfer i v st)
                = potis_dma_get_avg POTIS_DMA_1 st).
    { change POTIS_DMA_1 with (Z.of_nat 1).
      rewrite !(potis_dma_get_avg_channel 0) by lia.
      unfold dma_transfer. cbn [dma_address set_dma_address].
      rewrite sum_channel_store; [reflexivity|].
      intros k E. subst i. rewrite Nat.add_0_r, Nat.odd_mul in Hodd.
      discriminate. }
    split; [exact E|].
    unfold fan_control_set_rpm.
    cbn [targetRPM set_targetRPM fan_control_poti_val set_poti_val].
    rewrite E. reflexivity.
  - intros Hev. change POTIS_DMA_2 with (Z.of_nat 2).
    rewrite !(potis_dma_get_avg_channel 1) by lia.
    unfold dma_transfer. cbn [dma_address set_dma_address].
    rewrite sum_channel_store; [reflexivity|].
    intros k E. subst i.
    rewrite Nat.even_add, Nat.even_mul in Hev. discriminate.
  - intros input _ H1 H2. unfold potis_dma_get_avg.
    replace (input =? POTIS_DMA_1) with false by (symmetry; apply Z.eqb_neq; exact H1).
    replace (input =? POTIS_DMA_2) with false by (symmetry; apply Z.eqb_neq; exact H2).
    reflexivity.
Qed.

Lemma channels_do_not_mix_witness :
  targetRPM (fan_control_set_rpm (dma_transfer 1 4095 initial))
  = targetRPM (fan_control_set_rpm initial) /\
  potis_dma_get_avg 3 full_scale = 0.
Proof.
  split.
  - destruct (channels_do_not_mix initial 1 4095) as (H & _).
    destruct (H eq_refl) as (_ & Ht). exact Ht.
  - destruct (channels_do_not_mix full_scale 0 0) as (_ & _ & H).
    apply H; [lia|discriminate|discriminate].
Defined.

(** X10.  The set-point follows the potentiometer monotonically and in steps
    of one or two RPM.  For averages of channel 1 in the 12-bit range: a
    larger average never gives a smaller target; one ADC count more gives a
    target that is 1 or 2 RPM higher; the average 0 gives the target 0 and
    the average 4095 the target 4500. *)
Theorem set_rpm_monotone (st1 st2 : State) :
  0 <= potis_dma_get_avg POTIS_DMA_1 st1 ->
  potis_dma_get_avg POTIS_DMA_1 st1 <= potis_dma_get_avg POTIS_DMA_1 st2 ->
  potis_dma_get_avg POTIS_DMA_1 st2 <= 4095 ->
  let t1 := targetRPM (fan_control_set_rpm st1) in
  let t2 := targetRPM (fan_control_set_rpm st2) in
  t1 <= t2 /\
  (potis_dma_get_avg POTIS_DMA_1 st2 = potis_dma_get_avg POTIS_DMA_1 st1 + 1 ->
   1 <= t2 - t1 <= 2) /\
  (potis_dma_get_avg POTIS_DMA_1 st1 = 0 -> t1 = 0) /\
  (potis_dma_get_avg POTIS_DMA_1 st2 = 4095 -> t2 = 4500).
Proof.
  intros H0 H12 H2 t1 t2.
  destruct (fan_control_set_rpm_target st1 ltac:(lia)) as (E1 & _).
  destruct (fan_control_set_rpm_target st2 ltac:(lia)) as (E2 & _).
  subst t1 t2. rewrite E1, E2.
  set (a1 := potis_dma_get_avg POTIS_DMA_1 st1) in *.
  set (a2 := potis_dma_get_avg POTIS_DMA_1 st2) in *.
  clearbody a1 a2. split; [|split; [|split]].
  - apply Z.div_le_mono; lia.
  - intros ->.
    assert (A := Z.div_mod (a1 * 4500) 4095 ltac:(lia)).
    assert (B := Z.div_mod ((a1 + 1) * 4500) 4095 ltac:(lia)).
    assert (A' := Z.mod_pos_bound (a1 * 4500) 4095 ltac:(lia)).
    assert (B' := Z.mod_pos_bound ((a1 + 1) * 4500) 4095 ltac:(lia)).
    lia.
  - intros ->. reflexivity.
  - intros ->. reflexivity.
Qed.

Lemma set_rpm_monotone_witness :
  targetRPM (fan_control_set_rpm initial)
  <= targetRPM (fan_control_set_rpm full_scale).
Proof.
  destruct (set_rpm_monotone initial full_scale
              ltac:(vm_compute; discriminate) ltac:(vm_compute; discriminate)
              ltac:(vm_compute; discriminate)) as (H & _).
  exact H.
Defined.

(** X11.  Noise on the potentiometer stays within its bounds in the
    set-point.  When the hundred samples of channel 1 lie in [lo, hi] within
    the 12-bit range, the target that [fan_control_set_rpm] stores lies
    between the targets of [lo] and of [hi], and [fan_control_poti_val]
    holds the same value; steady samples [v] give exactly
    [v * 4500 / 4095]. *)
Theorem target_follows_samples (st : State) (lo hi : Z) :
  0 <= lo -> hi <= 4095 ->
  (forall k, (k < 100)%nat -> lo <= nth (2 * k) (dma_address st) 0 <= hi) ->
  lo * 4500 / 4095 <= targetRPM (fan_control_set_rpm st) <= hi * 4500 / 4095 /\
  fan_control_poti_val (fan_control_set_rpm st)
    = targetRPM (fan_control_set_rpm st) /\
  (lo = hi -> targetRPM (fan_control_set_rpm st) = lo * 4500 / 4095).
Proof.
  intros Hlo Hhi Hb.
  assert (Ha : lo <= potis_dma_get_avg POTIS_DMA_1 st <= hi).
  { apply (avg_between 0 st lo hi); try lia.
    intros k Hk. rewrite Nat.add_0_r. apply Hb. exact Hk. }
  destruct (fan_control_set_rpm_target st ltac:(lia)) as (Et & Ep).
  rewrite Ep, Et.
  set (a := potis_dma_get_avg POTIS_DMA_1 st) in *. clearbody a.
  split; [|split; [reflexivity|]].
  - split; apply Z.div_le_mono; lia.
  - intros E. assert (a = lo) by lia. subst a. reflexivity.
Qed.

Lemma target_follows_samples_witness :
  targetRPM (fan_control_set_rpm full_scale) = 4500.
Proof.
  assert (Hb : forall k, (k < 100)%nat ->
               4095 <= nth (2 * k) (dma_address full_scale) 0 <= 4095).
  { intros k Hk.
    change (dma_address full_scale) with (repeat 4095 200).
    rewrite nth_repeat_200 by lia. lia. }
  destruct (target_follows_samples full_scale 4095 4095
              ltac:(lia) ltac:(lia) Hb) as (_ & _ & H).
  exact (H eq_refl).
Defined.

(** * Where the tick is defined *)

(** X12.  Where the tick is defined.  On a well-formed state the speed
    estimate divides by zero for exactly two intervals, 0 and [2 ^ 31] (the
    values whose double is 0 in [uint32_t]), and the tick is undefined
    there.  For every other interval, provided the [int32_t] addition
    [errorSum += error] of line 388 does not overflow (C leaves that
    overflow undefined, and nothing is said of it here), all of the tick is
    defined: the second division is by the constant frequency, the computed
    output is never NaN, and what leaves the saturation converts to the
    compare register.  [errorSum] then ends as the mathematical sum
    [errorSum + error] or as it was: no wrap-around is involved. *)
Theorem regulateFanSpeed_defined_unless (st : State) :
  wf st ->
  (fan_control_time_interval st = 0 \/ fan_control_time_interval st = 2 ^ 31 ->
   regulateFanSpeed st = None) /\
  (fan_control_time_interval st <> 0 ->
   fan_control_time_interval st <> 2 ^ 31 ->
   let actual :=
     u32 (frequency st / u32 (fan_control_time_interval st * 2) * 60) in
   let error := s32 (u32 (targetRPM st - actual)) in
   is_s32 (errorSum st + error) ->
   exists st',
     regulateFanSpeed st = Some st' /\
     fan_control_actual_RPM st' = actual /\
     (errorSum st' = errorSum st + error \/ errorSum st' = errorSum st)).
Proof.
  intros (Hf & HKp & HKi & Hi & Ht & He). unfold is_u32 in Hi.
  assert (Hz : u32 (fan_control_time_interval st * 2) = 0 <->
               fan_control_time_interval st = 0 \/
               fan_control_time_interval st = 2 ^ 31).
  { unfold u32. split.
    - intros H. apply Z.mod_divide in H; [|lia]. destruct H as (k & Hk). lia.
    - intros [E | E]; rewrite E; reflexivity. }
  split.
  - intros H. apply Hz in H. unfold regulateFanSpeed, pi_law, udiv.
    rewrite H. reflexivity.
  - intros H0 H31 actual error Hsum.
    assert (E : u32 (fan_control_time_interval st * 2) <> 0)
      by (intros E; apply Hz in E; destruct E; contradiction).
    unfold regulateFanSpeed, pi_law, udiv.
    replace (u32 (fan_control_time_interval st * 2) =? 0) with false
      by (symmetry; apply Z.eqb_neq; exact E).
    cbn [bind set_actual_RPM fan_control_time_interval frequency targetRPM
         fan_control_actual_RPM errorSum Kp Ki set_errorSum set_output].
    fold actual. fold error.
    rewrite Hf. change (10000 =? 0) with false. cbn [bind fst snd].
    unfold actuate.
    set (st1 := set_output _ _).
    assert (Hn : F32.is_nan (output st1) = false).
    { subst st1. cbn [output set_output]. rewrite HKp, HKi.
      apply pi_output_not_nan; try apply s32_abs.
      assert (0 <= fan_control_time_interval st / 10000
              <= fan_control_time_interval st).
      { split; [apply Z.div_pos; lia|]. apply Z.div_le_upper_bound; lia. }
      lia. }
    destruct (saturate_converts error st1 Hn) as (c & Hc). rewrite Hc.
    cbn [bind]. eexists. split; [reflexivity|].
    destruct (saturate_frame error st1) as (Ha & _).
    cbn [HAL_TIM_SET_COMPARE write_TIM3 fan_control_actual_RPM errorSum].
    rewrite Ha. split; [reflexivity|].
    assert (Es : errorSum st1 = errorSum st + error).
    { subst st1. cbn [errorSum set_output set_errorSum]. apply s32_id. exact Hsum. }
    destruct (saturate_cases error st1) as [(_ & Hes & _)|(_ & Hsat)].
    + right. rewrite Hes, Es.
      replace (errorSum st + error - error) with (errorSum st) by lia.
      apply s32_id. exact He.
    + left. rewrite Hsat. exact Es.
Qed.

Lemma regulateFanSpeed_defined_unless_witness :
  wf target_3200 /\
  regulateFanSpeed (set_time_interval (2 ^ 31) initial) = None /\
  exists st',
    regulateFanSpeed target_3200 = Some st' /\
    fan_control_actual_RPM st' = 3000.
Proof.
  assert (Hwf : wf (set_time_interval (2 ^ 31) initial))
    by (repeat split; try reflexivity; vm_compute; congruence).
  split; [exact wf_target_3200|]. split.
  - apply (regulateFanSpeed_defined_unless _ Hwf). right. reflexivity.
  - destruct (regulateFanSpeed_defined_unless _ wf_target_3200) as (_ & H).
    destruct (H ltac:(vm_compute; discriminate) ltac:(vm_compute; discriminate)
                ltac:(vm_compute; split; [discriminate|reflexivity]))
      as (st' & Hr & Ha & _).
    exists st'. split; [exact Hr|]. rewrite Ha. vm_compute. reflexivity.
Defined.
